(** * send_email.py: configuration resolution, message assembly and the
    SMTP session, as a shallow embedding.

    Python values are modelled as follows.
    - [str] is [string]; a character is a code point below 256.
    - [int] is [Z].
    - [None]-able values are [option]s; Python truthiness ([if x], [x or y],
      [not x]) is written out at each use.
    - Dictionaries with a fixed set of literal keys ([YAHOO_DEFAULTS],
      [cfg], [tr], the argparse namespace) are records; [os.environ] is a
      finite map from names to values.
    - A raised exception is the [Raise] branch of [result].

    Library calls are modelled by what they return on the values the
    program hands them: [int], [str.lower], [argparse], [pathlib] and the
    [email] content model are written out; [mimetypes.guess_type] and
    [email.utils.formataddr] are parameters; what the SMTP server answers
    is a parameter of the session. *)

From Stdlib Require Import ZArith String Ascii DecimalString.
From stdpp Require Import base option list gmap strings.

Local Open Scope Z_scope.

(** ** Exceptions and results *)

Inductive value_error :=
| IntConversion (literal : string)   (* raised by [int(literal)] *)
| Message (msg : string).

Inductive exn :=
| ValueError (why : value_error)
| FileNotFoundError (msg : string)
| SystemExit (code : Z)
| SMTPException (msg : string).

Inductive result (A : Type) :=
| Ok (a : A)
| Raise (e : exn).
Arguments Ok {A} a.
Arguments Raise {A} e.

#[global] Instance result_ret : MRet result := @Ok.

#[global] Instance result_bind : MBind result := λ A B k r,
  match r with
  | Ok a => k a
  | Raise e => Raise e
  end.

#[global] Instance result_fmap : FMap result := λ A B f r,
  match r with
  | Ok a => Ok (f a)
  | Raise e => Raise e
  end.

(** ** Strings *)

Module Str.

Definition code (c : ascii) : N := N_of_ascii c.

Definition in_range (lo hi : N) (c : ascii) : bool :=
  ((lo <=? code c) && (code c <=? hi))%N.

(** [str.lower] on one character: A-Z, and the upper-case letters of
    Latin-1 (U+00C0..U+00DE without the multiplication sign U+00D7). *)
Definition lower_char (c : ascii) : ascii :=
  if in_range 65 90 c || (in_range 192 222 c && negb (code c =? 215)%N)
  then ascii_of_N (code c + 32)
  else c.

Fixpoint lower (s : string) : string :=
  match s with
  | EmptyString => EmptyString
  | String c s' => String (lower_char c) (lower s')
  end.

(** [sep.join(l)] *)
Fixpoint join (sep : string) (l : list string) : string :=
  match l with
  | [] => ""
  | [x] => x
  | x :: l' => x +:+ sep +:+ join sep l'
  end.

(** Truthiness of a string: non-empty. *)
Definition truthy (s : string) : bool :=
  match s with EmptyString => false | _ => true end.

(** [x or y] where [x] is a string or [None] and [y] a string. *)
Definition or_else (x : option string) (y : string) : string :=
  match x with
  | Some s => if truthy s then s else y
  | None => y
  end.

(** [x or y] where both may be [None]. *)
Definition or_opt (x y : option string) : option string :=
  match x with
  | Some s => if truthy s then Some s else y
  | None => y
  end.

End Str.

(** ** The built-in [int] on strings *)

Module PyInt.

(** Characters [int] skips around the literal: the ASCII white space and,
    through the Unicode normalisation [int] applies first, U+0085 and
    U+00A0. *)
Definition is_space (c : ascii) : bool :=
  Str.in_range 9 13 c || (Str.code c =? 32)%N
  || (Str.code c =? 133)%N || (Str.code c =? 160)%N.

Definition is_digit (c : ascii) : bool := Str.in_range 48 57 c.

Definition digit_value (c : ascii) : Z := Z.of_N (Str.code c) - 48.

Fixpoint drop_spaces (cs : list ascii) : list ascii :=
  match cs with
  | c :: cs' => if is_space c then drop_spaces cs' else cs
  | [] => []
  end.

Definition strip (cs : list ascii) : list ascii :=
  rev (drop_spaces (rev (drop_spaces cs))).

(** Digits with single underscores between them; [prev] says whether the
    previous character was a digit. *)
Fixpoint digits (cs : list ascii) (prev : bool) (acc : Z) : option Z :=
  match cs with
  | [] => if prev then Some acc else None
  | c :: cs' =>
      if is_digit c then digits cs' true (10 * acc + digit_value c)
      else if (Str.code c =? 95)%N then
        (if prev then digits cs' false acc else None)
      else None
  end.

(** [sys.get_int_max_str_digits()], at its default. *)
Definition int_max_str_digits : nat := 4300.

Definition within_limit (cs : list ascii) : bool :=
  (length (filter (fun c => is_digit c = true) cs) <=? int_max_str_digits)%nat.

Definition signed (cs : list ascii) : option Z :=
  match cs with
  | c :: cs' =>
      if (Str.code c =? 45)%N then Z.opp <$> digits cs' false 0
      else if (Str.code c =? 43)%N then digits cs' false 0
      else digits cs false 0
  | [] => None
  end.

Definition parse (s : string) : option Z :=
  let cs := strip (list_ascii_of_string s) in
  if within_limit cs then signed cs else None.

(** [int(s)] for a string [s], base 10. *)
Definition int (s : string) : result Z :=
  match parse s with
  | Some n => Ok n
  | None => Raise (ValueError (IntConversion s))
  end.

End PyInt.

(** ** Environment and built-in defaults *)

(** [os.environ], after the optional [.env] file has been loaded. *)
Abbreviation environ := (gmap string string).

(** [os.getenv(key, default)] *)
Definition getenv (env : environ) (key : string) (dflt : string) : string :=
  default dflt (env !! key).

Record yahoo_defaults := {
  MAIL_PROVIDER : string;
  MAIL_USER : string;
  MAIL_PASS : string;
  MAIL_HOST : string;
  MAIL_PORT : string;
  MAIL_ENCRYPTION : string;
  MAIL_FROM_NAME : string;
  MAIL_FROM_ADDRESS : string;
}.

Definition YAHOO_DEFAULTS (env : environ) : yahoo_defaults := {|
  MAIL_PROVIDER := "smtp";
  MAIL_USER := getenv env "YAHOO_EMAIL" "antonio.trento@yahoo.com";
  MAIL_PASS := getenv env "YAHOO_APP_PASSWORD" "";
  MAIL_HOST := "smtp.mail.yahoo.com";
  MAIL_PORT := "587";
  MAIL_ENCRYPTION := "tls";
  MAIL_FROM_NAME := "";
  MAIL_FROM_ADDRESS := getenv env "YAHOO_EMAIL" "antonio.trento@yahoo.com";
|}.

Definition env_get (env : environ) (key : string) (fallback : option string)
  : option string :=
  match env !! key with
  | None => fallback
  | Some val => if decide (val = "") then fallback else Some val
  end.

(** The closed set of encryption modes, [{"tls", "ssl", "none"}]. *)
Definition modes : list string := ["tls"; "ssl"; "none"].

Definition is_mode (s : string) : bool := bool_decide (s ∈ modes).

(** ** Transport settings read from the environment *)

Record env_cfg := {
  cfg_provider : string;
  cfg_user : string;
  cfg_password : string;
  cfg_host : string;
  cfg_port : Z;
  cfg_encryption : string;
  cfg_from_name : string;
  cfg_from_address : string;
}.

(** [int(v or 587)] where [v] is a string or [None]. *)
Definition int_or_587 (v : option string) : result Z :=
  match v with
  | Some s => if Str.truthy s then PyInt.int s else Ok 587
  | None => Ok 587
  end.

Definition load_transport_from_env (env : environ) : result env_cfg :=
  let d := YAHOO_DEFAULTS env in
  let provider := Str.or_else (env_get env "MAIL_PROVIDER" (Some (MAIL_PROVIDER d))) "smtp" in
  let user := Str.or_else (env_get env "MAIL_USER" (Some (MAIL_USER d))) "" in
  let password := Str.or_else (env_get env "MAIL_PASS" (Some (MAIL_PASS d))) "" in
  let host := Str.or_else (env_get env "MAIL_HOST" (Some (MAIL_HOST d))) "" in
  port ← int_or_587 (env_get env "MAIL_PORT" (Some (MAIL_PORT d)));
  let encryption :=
    Str.lower (Str.or_else (env_get env "MAIL_ENCRYPTION" (Some (MAIL_ENCRYPTION d))) "tls") in
  let from_name := Str.or_else (env_get env "MAIL_FROM_NAME" (Some (MAIL_FROM_NAME d))) "" in
  let from_address :=
    Str.or_else (env_get env "MAIL_FROM_ADDRESS" (Some (MAIL_FROM_ADDRESS d))) "" in
  Ok {|
    cfg_provider := provider;
    cfg_user := user;
    cfg_password := password;
    cfg_host := host;
    cfg_port := port;
    cfg_encryption := if is_mode encryption then encryption else "tls";
    cfg_from_name := from_name;
    cfg_from_address := from_address;
  |}.

(** ** Command line

    [parse_args] declares its options to [argparse]. The command line is
    taken as the list of option occurrences argparse finds in [argv]: an
    option string, exact or abbreviated, with the argument that follows it
    or is attached to it by [=], and the left-over words. The [--]
    separator and the help option argparse adds by itself are not part of
    this model. Every error argparse reports ends the process with exit
    status 2. *)

Module Argparse.

Inductive action := store | append | store_true.
Inductive arg_type := str | int.

Inductive value :=
| VStr (s : string)
| VInt (n : Z)
| VList (l : list string)
| VTrue.

Record argument := {
  option_string : string;
  dest : string;
  act : action;
  type : arg_type;
  choices : option (list string);
  required : bool;
  dflt : option value;
}.

Definition add_argument (flag dest : string) (a : action) : argument :=
  {| option_string := flag; dest := dest; act := a; type := str;
     choices := None; required := false; dflt := None |}.

Definition with_required (a : argument) : argument :=
  {| option_string := option_string a; dest := dest a; act := act a;
     type := type a; choices := choices a; required := true; dflt := dflt a |}.

Definition with_default (v : value) (a : argument) : argument :=
  {| option_string := option_string a; dest := dest a; act := act a;
     type := type a; choices := choices a; required := required a;
     dflt := Some v |}.

Definition with_type (t : arg_type) (a : argument) : argument :=
  {| option_string := option_string a; dest := dest a; act := act a;
     type := t; choices := choices a; required := required a; dflt := dflt a |}.

Definition with_choices (c : list string) (a : argument) : argument :=
  {| option_string := option_string a; dest := dest a; act := act a;
     type := type a; choices := Some c; required := required a; dflt := dflt a |}.

Inductive cli_item :=
| Opt (name : string) (arg : option string)
| Extra (word : string).

Definition usage_error {A} : result A := Raise (SystemExit 2).

Section Parser.
Variable parser : list argument.

Definition find_exact (name : string) : option argument :=
  snd <$> list_find (fun a => option_string a = name) parser.

Definition abbreviations (name : string) : list argument :=
  filter (fun a => String.prefix name (option_string a) = true) parser.

(** The declared option an occurrence names: the exact one, else the
    only one it abbreviates; more than one is an error, none leaves the
    occurrence unrecognised. *)
Definition parse_optional (name : string) : result (option argument) :=
  match find_exact name with
  | Some a => Ok (Some a)
  | None =>
      if (String.length name <? 3)%nat then Ok None
      else match abbreviations name with
           | [] => Ok None
           | [a] => Ok (Some a)
           | _ => usage_error
           end
  end.

(** Conversion by [type], then the [choices] check. *)
Definition get_value (a : argument) (s : string) : result value :=
  v ← match type a with
      | str => Ok (VStr s)
      | int => match PyInt.parse s with
               | Some n => Ok (VInt n)
               | None => usage_error
               end
      end;
  match choices a with
  | Some c => if bool_decide (s ∈ c) then Ok v else usage_error
  | None => Ok v
  end.

Definition as_list (v : option value) : list string :=
  match v with Some (VList l) => l | _ => [] end.

Definition take_action (a : argument) (arg : option string)
    (ns : gmap string value) : result (gmap string value) :=
  match act a, arg with
  | store, Some s => v ← get_value a s; Ok (<[dest a := v]> ns)
  | append, Some s =>
      v ← get_value a s;
      Ok (<[dest a := VList (as_list (ns !! dest a) ++ [s])]> ns)
  | store_true, None => Ok (<[dest a := VTrue]> ns)
  | _, _ => usage_error
  end.

(** The namespace before any option is seen: the declared defaults. *)
Definition defaults : gmap string value :=
  foldr (fun a ns => match dflt a with
                     | Some v => <[dest a := v]> ns
                     | None => ns
                     end) ∅ parser.

(** One pass over the occurrences; [seen] collects the options used,
    [extras] whether anything was left unrecognised. *)
Fixpoint consume (items : list cli_item) (ns : gmap string value)
    (seen : list string) (extras : bool)
  : result (gmap string value * list string * bool) :=
  match items with
  | [] => Ok (ns, seen, extras)
  | Extra _ :: rest => consume rest ns seen true
  | Opt name arg :: rest =>
      o ← parse_optional name;
      match o with
      | None => consume rest ns seen true
      | Some a =>
          ns' ← take_action a arg ns;
          consume rest ns' (option_string a :: seen) extras
      end
  end.

Definition missing_required (seen : list string) : bool :=
  existsb (fun a => required a && negb (bool_decide (option_string a ∈ seen))) parser.

Definition parse (items : list cli_item) : result (gmap string value) :=
  '(ns, seen, extras) ← consume items defaults [] false;
  if missing_required seen || extras then usage_error else Ok ns.

End Parser.

End Argparse.

Import Argparse.

(** The options [parse_args] declares, in its order. *)
Definition parser : list argument := [
  with_required (add_argument "--to" "to" append);
  add_argument "--cc" "cc" append;
  add_argument "--bcc" "bcc" append;
  with_required (add_argument "--subject" "subject" store);
  with_default (VStr "") (add_argument "--text" "text" store);
  add_argument "--html" "html" store;
  add_argument "--attach" "attachments" append;
  add_argument "--reply-to" "reply_to" store;
  add_argument "--from-address" "from_address" store;
  add_argument "--from-name" "from_name" store;
  add_argument "--user" "user" store;
  add_argument "--password" "password" store;
  add_argument "--host" "host" store;
  with_type int (add_argument "--port" "port" store);
  with_choices ["tls"; "ssl"; "none"] (add_argument "--encryption" "encryption" store);
  add_argument "--cafile" "cafile" store;
  add_argument "--insecure" "insecure" store_true;
  add_argument "--dry-run" "dry_run" store_true
].

(** [argparse.Namespace] with the attributes the program reads. *)
Record namespace := {
  args_to : option (list string);
  args_cc : option (list string);
  args_bcc : option (list string);
  args_subject : option string;
  args_text : option string;
  args_html : option string;
  args_attachments : option (list string);
  args_reply_to : option string;
  args_from_address : option string;
  args_from_name : option string;
  args_user : option string;
  args_password : option string;
  args_host : option string;
  args_port : option Z;
  args_encryption : option string;
  args_cafile : option string;
  args_insecure : bool;
  args_dry_run : bool;
}.

Definition attr_str (ns : gmap string value) (k : string) : option string :=
  match ns !! k with Some (VStr s) => Some s | _ => None end.

Definition attr_int (ns : gmap string value) (k : string) : option Z :=
  match ns !! k with Some (VInt n) => Some n | _ => None end.

Definition attr_list (ns : gmap string value) (k : string) : option (list string) :=
  match ns !! k with Some (VList l) => Some l | _ => None end.

Definition attr_flag (ns : gmap string value) (k : string) : bool :=
  match ns !! k with Some VTrue => true | _ => false end.

Definition to_namespace (ns : gmap string value) : namespace := {|
  args_to := attr_list ns "to";
  args_cc := attr_list ns "cc";
  args_bcc := attr_list ns "bcc";
  args_subject := attr_str ns "subject";
  args_text := attr_str ns "text";
  args_html := attr_str ns "html";
  args_attachments := attr_list ns "attachments";
  args_reply_to := attr_str ns "reply_to";
  args_from_address := attr_str ns "from_address";
  args_from_name := attr_str ns "from_name";
  args_user := attr_str ns "user";
  args_password := attr_str ns "password";
  args_host := attr_str ns "host";
  args_port := attr_int ns "port";
  args_encryption := attr_str ns "encryption";
  args_cafile := attr_str ns "cafile";
  args_insecure := attr_flag ns "insecure";
  args_dry_run := attr_flag ns "dry_run";
|}.

Definition parse_args (argv : list cli_item) : result namespace :=
  to_namespace <$> Argparse.parse parser argv.

(** ** Configuration resolution *)

Record transport := {
  tr_user : string;
  tr_password : string;
  tr_host : string;
  tr_port : Z;
  tr_encryption : string;
  tr_from_name : string;
  tr_from_address : string;
  tr_cafile : option string;
  tr_insecure : bool;
}.

Record msg_cfg := {
  msg_from_address : string;
  msg_from_name : string;
}.

(** The dictionary [tr] as first built: a command-line value where one was
    given, the value from the environment otherwise. *)
Definition cli_overrides (args : namespace) (cfg : env_cfg) : transport := {|
  tr_user := default (cfg_user cfg) (args_user args);
  tr_password := default (cfg_password cfg) (args_password args);
  tr_host := default (cfg_host cfg) (args_host args);
  tr_port := default (cfg_port cfg) (args_port args);
  tr_encryption := default (cfg_encryption cfg) (args_encryption args);
  tr_from_name := default (cfg_from_name cfg) (args_from_name args);
  tr_from_address := default (cfg_from_address cfg) (args_from_address args);
  tr_cafile := args_cafile args;
  tr_insecure := args_insecure args;
|}.

(** The four assignments under "Validation + sensible Yahoo fallbacks". *)
Definition fallbacks (env : environ) (tr : transport) : result transport :=
  let from_address :=
    if Str.truthy (tr_from_address tr) then tr_from_address tr else tr_user tr in
  let host :=
    if Str.truthy (tr_host tr) then tr_host tr else MAIL_HOST (YAHOO_DEFAULTS env) in
  port ← (if tr_port tr =? 0 then PyInt.int (MAIL_PORT (YAHOO_DEFAULTS env))
          else Ok (tr_port tr));
  let encryption :=
    if is_mode (tr_encryption tr) then tr_encryption tr else "tls" in
  Ok {|
    tr_user := tr_user tr;
    tr_password := tr_password tr;
    tr_host := host;
    tr_port := port;
    tr_encryption := encryption;
    tr_from_name := tr_from_name tr;
    tr_from_address := from_address;
    tr_cafile := tr_cafile tr;
    tr_insecure := tr_insecure tr;
  |}.

Definition resolve_config (env : environ) (args : namespace)
  : result (transport * msg_cfg) :=
  cfg ← load_transport_from_env env;
  tr ← fallbacks env (cli_overrides args cfg);
  Ok (tr, {| msg_from_address := tr_from_address tr;
             msg_from_name := tr_from_name tr |}).

(** ** TLS context *)

Inductive ca_source :=
| CaFile (path : string)    (* [load_verify_locations(cafile)] *)
| SystemDefault.            (* [load_default_certs()] *)

Inductive verify_mode := CERT_REQUIRED | CERT_NONE.

Record ssl_context := {
  ctx_ca : ca_source;
  ctx_check_hostname : bool;
  ctx_verify_mode : verify_mode;
}.

(** [ssl.create_default_context(cafile=...)] *)
Definition create_default_context (cafile : option string) : ssl_context := {|
  ctx_ca := match cafile with Some p => CaFile p | None => SystemDefault end;
  ctx_check_hostname := true;
  ctx_verify_mode := CERT_REQUIRED;
|}.

(** The bundle path [_build_ssl_context] settles on; [cafile_default] is the
    module's [_CAFILE_DEFAULT], [certifi.where()] when certifi is installed. *)
Definition chosen_cafile (env : environ) (cafile_default : option string)
    (cafile : option string) : option string :=
  Str.or_opt (Str.or_opt (Str.or_opt cafile (env !! "MAIL_SSL_CAFILE"))
                         (env !! "SSL_CERT_FILE"))
             cafile_default.

Definition _build_ssl_context (env : environ) (cafile_default : option string)
    (cafile : option string) (insecure : bool) : ssl_context :=
  let ctx :=
    match chosen_cafile env cafile_default cafile with
    | Some p => if Str.truthy p then create_default_context (Some p)
                else create_default_context None
    | None => create_default_context None
    end in
  if insecure then
    {| ctx_ca := ctx_ca ctx; ctx_check_hostname := false; ctx_verify_mode := CERT_NONE |}
  else ctx.

(** ** Paths and files *)

(** What [pathlib.Path] contributes: the text of a path and its last
    component. *)
Class Pathlib := {
  path_str : string → string;     (* [str(Path(f))] *)
  path_name : string → string;    (* [Path(f).name] *)
}.

Module Posix.

(** [s.split(sep)] *)
Fixpoint split (sep : ascii) (s : string) : list string :=
  match s with
  | EmptyString => [""]
  | String c s' =>
      if decide (c = sep) then "" :: split sep s'
      else match split sep s' with
           | x :: xs => String c x :: xs
           | [] => [String c ""]
           end
  end.

Definition slash : ascii := ascii_of_N 47.

(** Root ([""], ["/"] or ["//"]) and the rest of the text. *)
Definition splitroot (p : string) : string * string :=
  match p with
  | String a (String b (String c r)) =>
      if decide (a = slash) then
        if decide (b = slash) then
          if decide (c = slash) then ("/", String b (String c r))
          else ("//", String c r)
        else ("/", String b (String c r))
      else ("", p)
  | String a (String b EmptyString) =>
      if decide (a = slash) then
        if decide (b = slash) then ("//", "") else ("/", String b "")
      else ("", p)
  | String a EmptyString => if decide (a = slash) then ("/", "") else ("", p)
  | EmptyString => ("", "")
  end.

Definition parts (rel : string) : list string :=
  filter (fun x => x ≠ "" ∧ x ≠ ".") (split slash rel).

Definition str (f : string) : string :=
  let '(root, rel) := splitroot f in
  let body := Str.join "/" (parts rel) in
  if Str.truthy root then root +:+ body
  else if Str.truthy body then body else ".".

Definition name (f : string) : string :=
  let '(_, rel) := splitroot f in
  List.last (parts rel) "".

End Posix.

#[global] Instance posix_path : Pathlib :=
  {| path_str := Posix.str; path_name := Posix.name |}.

Inductive node :=
| File (data : list Byte.byte)
| Directory
| Special.

(** The file system, by path text. *)
Abbreviation filesystem := (gmap string node).

Definition exists_ (fs : filesystem) (p : string) : bool :=
  bool_decide (is_Some (fs !! p)).

Definition is_file (fs : filesystem) (p : string) : bool :=
  match fs !! p with Some (File _) => true | _ => false end.

Definition read_bytes (fs : filesystem) (p : string) : list Byte.byte :=
  match fs !! p with Some (File data) => data | _ => [] end.

(** ** Messages

    An [EmailMessage] is its header list, in the order the headers were
    set, its content, and the attribute [__all_recipients__] that
    [build_message] attaches. The content carries what the MIME headers
    ([MIME-Version], [Content-*]) and the payload say: a text part, an
    attachment or a multipart container. A header assignment records the
    name and the value it was given; header values are taken to be ones the
    [email] package accepts (text on a single line). *)

Inductive part :=
| Text (subtype : string) (body : string)
| Attachment (maintype subtype : string) (filename : string) (data : list Byte.byte)
| Multipart (subtype : string) (parts : list part).

Record EmailMessage := {
  headers : list (string * string);
  content : option part;
  all_recipients : option (list string);
}.

Definition empty_message : EmailMessage :=
  {| headers := []; content := None; all_recipients := None |}.

(** [msg[name] = value] *)
Definition set_header (name value : string) (m : EmailMessage) : EmailMessage :=
  {| headers := headers m ++ [(name, value)];
     content := content m;
     all_recipients := all_recipients m |}.

Definition with_content (c : part) (m : EmailMessage) : EmailMessage :=
  {| headers := headers m; content := Some c; all_recipients := all_recipients m |}.

(** [msg.set_content(text)] *)
Definition set_content (text : string) (m : EmailMessage) : EmailMessage :=
  with_content (Text "plain" text) m.

(** [_make_multipart]: existing content becomes the first sub-part. *)
Definition make_multipart (subtype : string) (disallowed : list string)
    (c : option part) : result part :=
  match c with
  | Some (Multipart existing ps) =>
      if bool_decide (existing ∈ disallowed ++ [subtype])
      then Raise (ValueError
                    (Message ("Cannot convert " +:+ existing +:+ " to " +:+ subtype)))
      else Ok (Multipart subtype [Multipart existing ps])
  | Some p => Ok (Multipart subtype [p])
  | None => Ok (Multipart subtype [])
  end.

(** [_add_multipart]: convert unless already a multipart of that subtype,
    then attach the new part. *)
Definition add_multipart (subtype : string) (disallowed : list string)
    (new : part) (m : EmailMessage) : result EmailMessage :=
  container ←
    match content m with
    | Some (Multipart s ps) =>
        if decide (s = subtype) then Ok (Multipart s ps)
        else make_multipart subtype disallowed (content m)
    | c => make_multipart subtype disallowed c
    end;
  match container with
  | Multipart s ps => Ok (with_content (Multipart s (ps ++ [new])) m)
  | _ => Ok m
  end.

(** [msg.add_alternative(html, subtype="html")] *)
Definition add_alternative (html : string) (m : EmailMessage) : result EmailMessage :=
  add_multipart "alternative" ["mixed"] (Text "html" html) m.

(** [msg.add_attachment(data, maintype=, subtype=, filename=)] *)
Definition add_attachment (data : list Byte.byte) (maintype subtype filename : string)
    (m : EmailMessage) : result EmailMessage :=
  add_multipart "mixed" [] (Attachment maintype subtype filename data) m.

Section Build.
Context `{Pathlib}.
Variable fs : filesystem.
(** [mimetypes.guess_type]: [None] or a type of the form type/subtype,
    taken here already split at its first slash. *)
Variable guess_type : string → option (string * string).
(** [email.utils.formataddr] on the pair (name, address). *)
Variable formataddr : string → string → string.

Definition guess_mime_type (path : string) : string * string :=
  match guess_type (path_str path) with
  | None => ("application", "octet-stream")
  | Some (maintype, subtype) => (maintype, subtype)
  end.

(** The attachment loop. *)
Fixpoint attach_all (attachments : list string) (m : EmailMessage)
  : result EmailMessage :=
  match attachments with
  | [] => Ok m
  | f :: rest =>
      if negb (exists_ fs (path_str f)) || negb (is_file fs (path_str f))
      then Raise (FileNotFoundError ("Allegato non trovato: " +:+ path_str f))
      else
        let '(maintype, subtype) := guess_mime_type f in
        let data := read_bytes fs (path_str f) in
        m' ← add_attachment data maintype subtype (path_name f) m;
        attach_all rest m'
  end.

(** [list({*(to or []), *(cc or []), *(bcc or [])})]; the order in which a
    set yields its members is not specified, and nothing here depends on
    it. *)
Definition recipients_of (to : list string) (cc bcc : option (list string))
  : list string :=
  elements (list_to_set to ∪ list_to_set (default [] cc)
            ∪ list_to_set (default [] bcc) : gset string).

Definition build_message (from_address from_name : string) (to : list string)
    (subject text : string) (html : option string)
    (cc bcc : option (list string)) (reply_to : option string)
    (attachments : option (list string)) : result EmailMessage :=
  let msg := empty_message in
  let display_from :=
    if Str.truthy from_name then formataddr from_name from_address
    else from_address in
  let msg := set_header "From" display_from msg in
  let msg := set_header "To" (Str.join ", " to) msg in
  let msg :=
    match cc with
    | Some (c :: cs) => set_header "Cc" (Str.join ", " (c :: cs)) msg
    | _ => msg
    end in
  let msg := set_header "Subject" subject msg in
  let msg :=
    match reply_to with
    | Some r => if Str.truthy r then set_header "Reply-To" r msg else msg
    | None => msg
    end in
  msg ← match html with
        | Some h =>
            if Str.truthy h then add_alternative h (set_content text msg)
            else Ok (set_content text msg)
        | None => Ok (set_content text msg)
        end;
  msg ← attach_all (default [] attachments) msg;
  Ok {| headers := headers msg;
        content := content msg;
        all_recipients := Some (recipients_of to cc bcc) |}.

(** *** What a successful build contains *)

Definition missing (f : string) : bool :=
  negb (exists_ fs (path_str f)) || negb (is_file fs (path_str f)).

(** The first path of the list that is missing or not a regular file. *)
Fixpoint first_missing (attachments : list string) : option string :=
  match attachments with
  | [] => None
  | f :: rest => if missing f then Some f else first_missing rest
  end.

Definition attachment_of (f : string) : part :=
  Attachment (guess_mime_type f).1 (guess_mime_type f).2 (path_name f)
             (read_bytes fs (path_str f)).

Definition header_list (from_address from_name : string) (to : list string)
    (subject : string) (cc : option (list string)) (reply_to : option string)
  : list (string * string) :=
  [("From", if Str.truthy from_name then formataddr from_name from_address
            else from_address);
   ("To", Str.join ", " to)]
  ++ match cc with
     | Some (c :: cs) => [("Cc", Str.join ", " (c :: cs))]
     | _ => []
     end
  ++ [("Subject", subject)]
  ++ match reply_to with
     | Some r => if Str.truthy r then [("Reply-To", r)] else []
     | None => []
     end.

Definition body_of (text : string) (html : option string) : part :=
  match html with
  | Some h =>
      if Str.truthy h then Multipart "alternative" [Text "plain" text; Text "html" h]
      else Text "plain" text
  | None => Text "plain" text
  end.

Definition content_of (body : part) (attached : list part) : part :=
  match attached with
  | [] => body
  | _ :: _ => Multipart "mixed" (body :: attached)
  end.

(** One turn of the attachment loop on a usable file. *)
Definition attached (m : EmailMessage) (f : string) : EmailMessage :=
  with_content
    (match content m with
     | Some (Multipart s ps) =>
         if decide (s = "mixed")
         then Multipart s (ps ++ [attachment_of f])
         else Multipart "mixed" [Multipart s ps; attachment_of f]
     | Some p => Multipart "mixed" [p; attachment_of f]
     | None => Multipart "mixed" [attachment_of f]
     end) m.

End Build.

(** ** The SMTP session

    Calls into [smtplib] are recorded, in order, in a trace; whether a call
    raises is the server's and the network's business, given here by
    [peer]: from the calls made so far and the next one, the exception it
    raises, if any. *)

Inductive smtp_call :=
| ConnectSSL (host : string) (port : Z) (context : ssl_context)  (* [smtplib.SMTP_SSL(...)] *)
| Connect (host : string) (port : Z)                             (* [smtplib.SMTP(...)] *)
| Ehlo
| StartTLS (context : ssl_context)
| Login (user password : string)
| SendMessage (msg : EmailMessage) (to_addrs : list string)
| Close.                                                         (* leaving the [with] block *)

Definition session (A : Type) : Type :=
  list smtp_call → list smtp_call * result A.

#[global] Instance session_ret : MRet session := λ A a trace, (trace, Ok a).

#[global] Instance session_bind : MBind session := λ A B k s trace,
  match s trace with
  | (trace', Ok a) => k a trace'
  | (trace', Raise e) => (trace', Raise e)
  end.

Definition raise {A} (e : exn) : session A := λ trace, (trace, Raise e).

Section Send.
Variable env : environ.
Variable cafile_default : option string.
Variable peer : list smtp_call → smtp_call → option exn.

Definition call (c : smtp_call) : session unit := λ trace,
  (trace ++ [c], match peer trace c with Some e => Raise e | None => Ok () end).

(** [with connect as server: body]: nothing is entered when the
    connection fails; once entered, the block is left through [Close]
    whether or not the body raised. *)
Definition with_server (connect : smtp_call) (body : session unit) : session unit :=
  λ trace,
    match call connect trace with
    | (trace1, Raise e) => (trace1, Raise e)
    | (trace1, Ok _) =>
        let '(trace2, r) := body trace1 in
        match call Close trace2 with
        | (trace3, Raise e) => (trace3, Raise e)
        | (trace3, Ok _) => (trace3, r)
        end
    end.

Definition login_if (user password : string) : session unit :=
  if Str.truthy user then call (Login user password) else mret ().

Definition send_smtp (msg : EmailMessage) (user password host : string) (port : Z)
    (encryption : string) (cafile : option string) (insecure : bool)
  : session unit :=
  let recipients := default [] (all_recipients msg) in
  match recipients with
  | [] => raise (ValueError (Message "Nessun destinatario (To/Cc/Bcc) indicato."))
  | _ :: _ =>
      let encryption :=
        Str.lower (if Str.truthy encryption then encryption else "tls") in
      if decide (encryption = "ssl") then
        let context := _build_ssl_context env cafile_default cafile insecure in
        with_server (ConnectSSL host port context)
          (login_if user password;;
           call (SendMessage msg recipients))
      else
        with_server (Connect host port)
          (call Ehlo;;
           (if decide (encryption = "tls") then
              let context := _build_ssl_context env cafile_default cafile insecure in
              call (StartTLS context);;
              call Ehlo
            else mret ());;
           login_if user password;;
           call (SendMessage msg recipients))
  end.

End Send.

(** ** Vocabulary of the statements *)


(** A bundle source is present when it is a non-empty string. *)
Fixpoint first_present (sources : list (option string)) : option string :=
  match sources with
  | [] => None
  | Some p :: rest => if decide (p = "") then first_present rest else Some p
  | None :: rest => first_present rest
  end.

(** The transport settings [resolve_config] returns, given what the
    environment yielded. *)
Definition resolved (args : namespace) (cfg : env_cfg) : transport :=
  let tr := cli_overrides args cfg in
  {| tr_user := tr_user tr;
     tr_password := tr_password tr;
     tr_host := if decide (tr_host tr = "") then "smtp.mail.yahoo.com" else tr_host tr;
     tr_port := if decide (tr_port tr = 0) then 587 else tr_port tr;
     tr_encryption := if decide (tr_encryption tr ∈ modes) then tr_encryption tr else "tls";
     tr_from_name := tr_from_name tr;
     tr_from_address :=
       if decide (tr_from_address tr = "") then tr_user tr else tr_from_address tr;
     tr_cafile := tr_cafile tr;
     tr_insecure := tr_insecure tr |}.


(** ** Sample inputs *)

(** A command line with the two required options and nothing else. *)
Definition argv_plain : list cli_item :=
  [Opt "--to" (Some "a@x.com"); Opt "--subject" (Some "Hi")].

Definition args_plain : namespace := {|
  args_to := Some ["a@x.com"]; args_cc := None; args_bcc := None;
  args_subject := Some "Hi"; args_text := Some ""; args_html := None;
  args_attachments := None; args_reply_to := None;
  args_from_address := None; args_from_name := None; args_user := None;
  args_password := None; args_host := None; args_port := None;
  args_encryption := None; args_cafile := None;
  args_insecure := false; args_dry_run := false;
|}.


Definition args_blank : namespace := {|
  args_to := Some ["a@x.com"]; args_cc := None; args_bcc := None;
  args_subject := Some "Hi"; args_text := Some ""; args_html := None;
  args_attachments := None; args_reply_to := None;
  args_from_address := Some ""; args_from_name := None; args_user := Some "me@x.com";
  args_password := None; args_host := Some ""; args_port := Some 0;
  args_encryption := None; args_cafile := None;
  args_insecure := false; args_dry_run := false;
|}.

Definition cfg_unset : env_cfg := {|
  cfg_provider := "smtp"; cfg_user := "antonio.trento@yahoo.com"; cfg_password := "";
  cfg_host := "smtp.mail.yahoo.com"; cfg_port := 587; cfg_encryption := "tls";
  cfg_from_name := ""; cfg_from_address := "antonio.trento@yahoo.com";
|}.

Definition fs_sample : filesystem :=
  {[ "report.pdf" := File [Byte.x25; Byte.x50; Byte.x44; Byte.x46];
     "docs" := Directory ]}.

Definition guess_type_sample (path : string) : option (string * string) :=
  if decide (path = "report.pdf") then Some ("application", "pdf") else None.

Definition formataddr_sample (name address : string) : string :=
  name +:+ " <" +:+ address +:+ ">".

Definition msg_sample : EmailMessage := {|
  headers := [("From", "Me <me@x.com>"); ("To", "a@x.com, b@x.com");
              ("Cc", "c@x.com, a@x.com"); ("Subject", "Hi")];
  content := Some (Multipart "mixed"
                     [Text "plain" "Hello";
                      Attachment "application" "pdf" "report.pdf"
                        [Byte.x25; Byte.x50; Byte.x44; Byte.x46]]);
  all_recipients :=
    Some (recipients_of ["a@x.com"; "b@x.com"] (Some ["c@x.com"; "a@x.com"])
            (Some ["d@x.com"]));
|}.

(** ** The calls of a session, as a list *)

Section Script.
Variable env : environ.
Variable cafile_default : option string.
Variable peer : list smtp_call → smtp_call → option exn.

(** The calls of [cs] one after the other, up to the first that raises. *)
Fixpoint run (cs : list smtp_call) : session unit :=
  match cs with
  | [] => mret ()
  | c :: rest => call peer c;; run rest
  end.

(** The mode [send_smtp] acts on: [(encryption or "tls").lower()]. *)
Definition mode_of (encryption : string) : string :=
  Str.lower (if Str.truthy encryption then encryption else "tls").

Definition login_calls (user password : string) : list smtp_call :=
  if Str.truthy user then [Login user password] else [].

(** The call that opens the connection. *)
Definition connect_call (host : string) (port : Z) (encryption : string)
    (cafile : option string) (insecure : bool) : smtp_call :=
  if decide (mode_of encryption = "ssl")
  then ConnectSSL host port (_build_ssl_context env cafile_default cafile insecure)
  else Connect host port.

(** The calls inside the [with] block, in the order of the source. *)
Definition body_calls (msg : EmailMessage) (user password : string)
    (encryption : string) (cafile : option string) (insecure : bool)
  : list smtp_call :=
  (if decide (mode_of encryption = "ssl") then []
   else Ehlo ::
        (if decide (mode_of encryption = "tls")
         then [StartTLS (_build_ssl_context env cafile_default cafile insecure); Ehlo]
         else []))
  ++ login_calls user password
  ++ [SendMessage msg (default [] (all_recipients msg))].

End Script.

(** A peer that accepts every call. *)
Definition accepting : list smtp_call → smtp_call → option exn := λ _ _, None.


Definition refusing_starttls : list smtp_call → smtp_call → option exn := λ _ c,
  match c with
  | StartTLS _ => Some (SMTPException "STARTTLS not supported")
  | _ => None
  end.


(** A message with one recipient and nothing else. *)
Definition msg_one : EmailMessage :=
  {| headers := []; content := None; all_recipients := Some ["a@x.com"] |}.

(** A call that transmits a message. *)
Definition is_send (c : smtp_call) : Prop := ∃ m r, c = SendMessage m r.

(** ** Reading a command line *)

(** Whether an occurrence written [name] is one of the option [flag]. *)
Definition names (flag name : string) : bool :=
  match parse_optional parser name with
  | Ok (Some a) => bool_decide (option_string a = flag)
  | _ => false
  end.

(** The arguments given to [flag] on a command line, in order. *)
Fixpoint values_of (flag : string) (argv : list cli_item) : list string :=
  match argv with
  | [] => []
  | Opt name (Some v) :: rest =>
      if names flag name then v :: values_of flag rest else values_of flag rest
  | _ :: rest => values_of flag rest
  end.

(** Whether [flag] occurs on a command line. *)
Definition occurs (flag : string) (argv : list cli_item) : bool :=
  existsb (λ it, match it with
                 | Opt name _ => names flag name
                 | Extra _ => false
                 end) argv.

(** Whether the action of [a] goes through on [arg]: no argument for a
    switch, and for the others one that converts and is among the
    choices. *)
Definition action_ok (a : argument) (arg : option string) : bool :=
  match act a, arg with
  | store_true, None => true
  | store_true, Some _ => false
  | _, Some s => match get_value a s with Ok _ => true | Raise _ => false end
  | _, None => false
  end.

(** An occurrence of a declared option whose action goes through. *)
Definition accepted (it : cli_item) : bool :=
  match it with
  | Opt name arg =>
      match parse_optional parser name with
      | Ok (Some a) => action_ok a arg
      | _ => false
      end
  | Extra _ => false
  end.

(** What [action="append"] leaves for a list of values: [None] when there
    is none. *)
Definition list_or_none (l : list string) : option (list string) :=
  match l with
  | [] => None
  | _ :: _ => Some l
  end.

(** A command line with repeated, abbreviated and attached options. *)
Definition argv_repeated : list cli_item :=
  [Opt "--to" (Some "a@x.com"); Opt "--subj" (Some "Hi"); Opt "--cc" (Some "c@x.com");
   Opt "--to" (Some "b@x.com"); Opt "--port" (Some "25"); Opt "--subject" (Some "Hello");
   Opt "--port" (Some " 4_65 "); Opt "--dry" None].

Definition args_repeated : namespace := {|
  args_to := Some ["a@x.com"; "b@x.com"]; args_cc := Some ["c@x.com"]; args_bcc := None;
  args_subject := Some "Hello"; args_text := Some ""; args_html := None;
  args_attachments := None; args_reply_to := None;
  args_from_address := None; args_from_name := None; args_user := None;
  args_password := None; args_host := None; args_port := Some 465;
  args_encryption := None; args_cafile := None;
  args_insecure := false; args_dry_run := true;
|}.

(** ** Reading a built message *)

(** The parts attached to a content: those that follow the body in a
    multipart/mixed. *)
Definition attachments_in (c : part) : list part :=
  match c with
  | Multipart subtype (_ :: rest) => if decide (subtype = "mixed") then rest else []
  | _ => []
  end.

Definition attachments_of (m : EmailMessage) : list part :=
  match content m with
  | Some c => attachments_in c
  | None => []
  end.

(** [msg.get(name)], for a name written as it was set. *)
Definition get (name : string) (m : EmailMessage) : option string :=
  (λ found, found.2.2) <$> list_find (λ h, h.1 = name) (headers m).

(** ** The program

    A run is given the command line, the environment, the file system, the
    peer of the SMTP session and the password typed at the prompt, if one
    is asked for. It leaves, in order, what it asked, what it printed on
    the standard output and the calls it made to [smtplib], and returns or
    raises. *)

Inductive event :=
| Asked (prompt : string)      (* [getpass.getpass(prompt)] *)
| Printed (text : string)      (* [print(text)] *)
| Called (c : smtp_call).

(** [str(n)] for an integer. *)
Definition str_of_int (n : Z) : string := NilZero.string_of_int (Z.to_int n).

Definition newline : string := String (ascii_of_N 10) "".

(** The check mark that opens the last line, a character outside those of
    this model, stands as the three bytes of its UTF-8 form. *)
Definition check_mark : string :=
  String (ascii_of_N 226) (String (ascii_of_N 156) (String (ascii_of_N 133) "")).

Section Main.
Context `{Pathlib}.
Variable env : environ.
Variable cafile_default : option string.
Variable fs : filesystem.
Variable guess_type : string → option (string * string).
Variable formataddr : string → string → string.
Variable peer : list smtp_call → smtp_call → option exn.
(** What is typed at the password prompt. *)
Variable typed : string.
(** [str(msg[name])]: the text the [email] package gives back for a header
    that was set to [value]. *)
Variable shown : string → string → string.

(** The lines of a dry run. *)
Definition dry_run_report (msg : EmailMessage) (transport : transport) : list string :=
  ["[DRY-RUN] Messaggio costruito. Intestazioni principali:" +:+ newline]
  ++ omap (λ k, match get k msg with
                | Some v => if Str.truthy (shown k v) then Some (k +:+ ": " +:+ shown k v)
                            else None
                | None => None
                end) ["From"; "To"; "Cc"; "Subject"; "Reply-To"]
  ++ [newline +:+ "Trasporto:";
      "Host: " +:+ tr_host transport +:+ "  Port: " +:+ str_of_int (tr_port transport)
      +:+ "  Enc: " +:+ tr_encryption transport +:+ "  User: " +:+ tr_user transport;
      "CAFile: " +:+ default "None" (chosen_cafile env cafile_default (tr_cafile transport));
      "Corpo generato e allegati conteggiati con successo."].

Definition main (argv : list cli_item) : list event * result unit :=
  match parse_args argv with
  | Raise e => ([], Raise e)
  | Ok args =>
      match resolve_config env args with
      | Raise e => ([], Raise e)
      | Ok (transport, msg_cfg) =>
          let ask :=
            Str.truthy (tr_user transport) && negb (Str.truthy (tr_password transport)) in
          let password := if ask then typed else tr_password transport in
          let asked :=
            if ask then [Asked "Inserisci la password/app password SMTP: "] else [] in
          match build_message fs guess_type formataddr
                  (msg_from_address msg_cfg) (msg_from_name msg_cfg)
                  (default [] (args_to args)) (default "" (args_subject args))
                  (default "" (args_text args)) (args_html args) (args_cc args)
                  (args_bcc args) (args_reply_to args) (args_attachments args) with
          | Raise e => (asked, Raise e)
          | Ok msg =>
              if args_dry_run args
              then (asked ++ map Printed (dry_run_report msg transport), Ok ())
              else
                match send_smtp env cafile_default peer msg (tr_user transport) password
                        (tr_host transport) (tr_port transport) (tr_encryption transport)
                        (tr_cafile transport) (tr_insecure transport) [] with
                | (trace, Raise e) => (asked ++ map Called trace, Raise e)
                | (trace, Ok _) =>
                    (asked ++ map Called trace
                     ++ [Printed (check_mark +:+ " Email inviata correttamente a: "
                                  +:+ Str.join ", " (default [] (all_recipients msg)))],
                     Ok ())
                end
          end
      end
  end.

End Main.

(** What the program asks before it builds the message. *)
Definition asked_for (tr : transport) : list event :=
  if Str.truthy (tr_user tr) && negb (Str.truthy (tr_password tr))
  then [Asked "Inserisci la password/app password SMTP: "] else [].

(** The settings an empty environment and [args_plain] resolve to. *)
Definition tr_unset : transport := {|
  tr_user := "antonio.trento@yahoo.com"; tr_password := "";
  tr_host := "smtp.mail.yahoo.com"; tr_port := 587; tr_encryption := "tls";
  tr_from_name := ""; tr_from_address := "antonio.trento@yahoo.com";
  tr_cafile := None; tr_insecure := false;
|}.

Definition mc_unset : msg_cfg :=
  {| msg_from_address := "antonio.trento@yahoo.com"; msg_from_name := "" |}.

Definition args_dry_run_set : namespace := {|
  args_to := Some ["a@x.com"]; args_cc := None; args_bcc := None;
  args_subject := Some "Hi"; args_text := Some ""; args_html := None;
  args_attachments := None; args_reply_to := None;
  args_from_address := None; args_from_name := None; args_user := None;
  args_password := None; args_host := None; args_port := None;
  args_encryption := None; args_cafile := None;
  args_insecure := false; args_dry_run := true;
|}.


(** A run on the sample file system, with a server that accepts every
    call, the password "pw" typed at the prompt and headers shown as they
    were set. *)
Definition main_sample : list cli_item → list event * result unit :=
  main ∅ None fs_sample guess_type_sample formataddr_sample accepting "pw" (λ _ v, v).

(** * Properties *)

(** ** Strings, [int] and paths on examples *)

Lemma truthy_true s : Str.truthy s = true ↔ s ≠ "".
Proof. destruct s; simpl; split; congruence. Qed.

Example int_587 : PyInt.int "587" = Ok 587.
Proof. reflexivity. Qed.

Example int_spaces_sign : PyInt.int "  -1_000 " = Ok (-1000).
Proof. reflexivity. Qed.

Example int_bad : PyInt.int "1__0" = Raise (ValueError (IntConversion "1__0")).
Proof. reflexivity. Qed.

Example lower_ssl : Str.lower "SsL" = "ssl".
Proof. reflexivity. Qed.

Example posix_examples :
  map (fun f => (path_str f, path_name f)) [""; "./a"; "a//b/./c/"; "///a//b"; "//a"; "a/.."]
  = [(".", ""); ("a", "a"); ("a/b/c", "c"); ("/a/b", "b"); ("//a", "a"); ("a/..", "..")].
Proof. reflexivity. Qed.

(** ** Results *)


Lemma is_mode_true s : is_mode s = true ↔ s ∈ modes.
Proof. unfold is_mode. apply bool_decide_eq_true. Qed.


(** ** Configuration *)



Lemma env_get_set env key fb v :
  env !! key = Some v → v ≠ "" → env_get env key fb = Some v.
Proof. unfold env_get. intros -> Hv. by rewrite decide_False. Qed.

(** The port conversion is the only step of [load_transport_from_env] that
    can raise. *)
Lemma load_transport_from_env_port env :
  load_transport_from_env env =
  (int_or_587 (env_get env "MAIL_PORT" (Some "587")) ≫= λ port,
   Ok {| cfg_provider := Str.or_else (env_get env "MAIL_PROVIDER" (Some "smtp")) "smtp";
         cfg_user := Str.or_else (env_get env "MAIL_USER"
                       (Some (getenv env "YAHOO_EMAIL" "antonio.trento@yahoo.com"))) "";
         cfg_password := Str.or_else (env_get env "MAIL_PASS"
                           (Some (getenv env "YAHOO_APP_PASSWORD" ""))) "";
         cfg_host := Str.or_else (env_get env "MAIL_HOST" (Some "smtp.mail.yahoo.com")) "";
         cfg_port := port;
         cfg_encryption :=
           (let e := Str.lower (Str.or_else (env_get env "MAIL_ENCRYPTION" (Some "tls")) "tls") in
            if is_mode e then e else "tls");
         cfg_from_name := Str.or_else (env_get env "MAIL_FROM_NAME" (Some "")) "";
         cfg_from_address := Str.or_else (env_get env "MAIL_FROM_ADDRESS"
                               (Some (getenv env "YAHOO_EMAIL" "antonio.trento@yahoo.com"))) "";
      |}).
Proof. reflexivity. Qed.


Lemma truthy_decide {A} s (x y : A) :
  (if Str.truthy s then x else y) = if decide (s = "") then y else x.
Proof. destruct s; reflexivity. Qed.

Lemma fallbacks_resolved env args cfg :
  fallbacks env (cli_overrides args cfg) = Ok (resolved args cfg).
Proof.
  unfold fallbacks, resolved.
  change (PyInt.int (MAIL_PORT (YAHOO_DEFAULTS env))) with (@Ok Z 587).
  rewrite !truthy_decide. unfold is_mode.
  set (tr := cli_overrides args cfg).
  destruct (Z.eqb_spec (tr_port tr) 0) as [Hp|Hp]; simpl;
    repeat case_decide; repeat case_bool_decide; done.
Qed.

Lemma resolve_config_loaded env args cfg :
  load_transport_from_env env = Ok cfg →
  resolve_config env args =
  Ok (resolved args cfg,
      {| msg_from_address := tr_from_address (resolved args cfg);
         msg_from_name := tr_from_name (resolved args cfg) |}).
Proof.
  intros Hload. unfold resolve_config. rewrite Hload. simpl.
  rewrite fallbacks_resolved. reflexivity.
Qed.

Lemma resolve_config_raise env args e :
  load_transport_from_env env = Raise e → resolve_config env args = Raise e.
Proof. intros Hload. unfold resolve_config. by rewrite Hload. Qed.

Example parse_args_plain : parse_args argv_plain = Ok args_plain.
Proof. reflexivity. Qed.





Example load_unset : load_transport_from_env ∅ = Ok cfg_unset.
Proof. reflexivity. Qed.



(** C6. After the overrides are merged into [tr0], the resolver replaces an
    empty sender address by the user name, an empty host by the built-in
    host and a zero port by 587 (the port is always an integer here, so
    zero is its only falsy value); a non-empty address, a non-empty host
    and a non-zero port stay as merged, and user, password, from-name,
    cafile and the insecure flag are never touched. *)
Theorem C6_fallbacks_after_merge (env : environ) (args : namespace) (cfg : env_cfg) :
  load_transport_from_env env = Ok cfg →
  let tr0 := cli_overrides args cfg in
  ∃ tr mc, resolve_config env args = Ok (tr, mc)
    ∧ tr_from_address tr =
        (if decide (tr_from_address tr0 = "") then tr_user tr else tr_from_address tr0)
    ∧ tr_host tr =
        (if decide (tr_host tr0 = "") then MAIL_HOST (YAHOO_DEFAULTS env) else tr_host tr0)
    ∧ MAIL_HOST (YAHOO_DEFAULTS env) = "smtp.mail.yahoo.com"
    ∧ tr_port tr = (if decide (tr_port tr0 = 0) then 587 else tr_port tr0)
    ∧ tr_user tr = tr_user tr0
    ∧ tr_password tr = tr_password tr0
    ∧ tr_from_name tr = tr_from_name tr0
    ∧ tr_cafile tr = tr_cafile tr0
    ∧ tr_insecure tr = tr_insecure tr0
    ∧ msg_from_address mc = tr_from_address tr
    ∧ msg_from_name mc = tr_from_name tr.
Proof.
  intros Hload tr0. eexists _, _. split; [by apply resolve_config_loaded|].
  simpl. repeat split.
Qed.

Lemma C6_fallbacks_after_merge_witness :
  ∃ tr mc, resolve_config ∅ args_blank = Ok (tr, mc)
    ∧ tr_from_address tr = tr_user tr
    ∧ tr_host tr = MAIL_HOST (YAHOO_DEFAULTS ∅)
    ∧ MAIL_HOST (YAHOO_DEFAULTS ∅) = "smtp.mail.yahoo.com"
    ∧ tr_port tr = 587
    ∧ tr_user tr = "me@x.com"
    ∧ tr_password tr = ""
    ∧ tr_from_name tr = ""
    ∧ tr_cafile tr = None
    ∧ tr_insecure tr = false
    ∧ msg_from_address mc = tr_from_address tr
    ∧ msg_from_name mc = tr_from_name tr.
Proof. apply (C6_fallbacks_after_merge ∅ args_blank cfg_unset). reflexivity. Defined.

(** C9. When MAIL_PORT is set to a non-empty string that [int] rejects,
    the resolution raises the [ValueError] of that conversion; no default
    port is substituted. *)
Theorem C9_bad_port_raises (env : environ) (args : namespace) (s : string) :
  env !! "MAIL_PORT" = Some s →
  s ≠ "" →
  PyInt.parse s = None →
  resolve_config env args = Raise (ValueError (IntConversion s)).
Proof.
  intros Hs Hne Hbad. apply resolve_config_raise.
  rewrite load_transport_from_env_port.
  rewrite (env_get_set _ _ _ _ Hs Hne). unfold int_or_587.
  apply truthy_true in Hne. rewrite Hne.
  unfold PyInt.int. by rewrite Hbad.
Qed.

Lemma C9_bad_port_raises_witness :
  resolve_config {["MAIL_PORT" := "5 87"]} args_plain
  = Raise (ValueError (IntConversion "5 87")).
Proof.
  apply (C9_bad_port_raises _ _ "5 87"); [reflexivity | discriminate | reflexivity].
Defined.

(** ** TLS context *)

(** C7. The context is built from the first present source among the
    explicit argument, MAIL_SSL_CAFILE, SSL_CERT_FILE and the certifi
    bundle, in that order, and from the platform's default trust store when
    none is present; the insecure flag does not change the choice. *)
Theorem C7_cafile_priority (env : environ) (cafile_default cafile : option string)
    (insecure : bool) :
  ctx_ca (_build_ssl_context env cafile_default cafile insecure) =
  match first_present [cafile; env !! "MAIL_SSL_CAFILE"; env !! "SSL_CERT_FILE";
                       cafile_default] with
  | Some p => CaFile p
  | None => SystemDefault
  end.
Proof.
  unfold _build_ssl_context, chosen_cafile, Str.or_opt. simpl.
  destruct cafile as [[|??]|], (env !! "MAIL_SSL_CAFILE") as [[|??]|],
    (env !! "SSL_CERT_FILE") as [[|??]|], cafile_default as [[|??]|],
    insecure; reflexivity.
Qed.

(** ** Message assembly *)

Section BuildProperties.
Context `{Pathlib}.
Variable fs : filesystem.
Variable guess_type : string → option (string * string).
Variable formataddr : string → string → string.

Lemma add_attachment_ok data maintype subtype filename m :
  ∃ c, add_attachment data maintype subtype filename m = Ok (with_content c m)
       ∧ c = match content m with
             | Some (Multipart s ps) =>
                 if decide (s = "mixed")
                 then Multipart s (ps ++ [Attachment maintype subtype filename data])
                 else Multipart "mixed"
                        [Multipart s ps; Attachment maintype subtype filename data]
             | Some p => Multipart "mixed" [p; Attachment maintype subtype filename data]
             | None => Multipart "mixed" [Attachment maintype subtype filename data]
             end.
Proof.
  unfold add_attachment, add_multipart.
  destruct (content m) as [[| |s ps]|] eqn:Hc; simpl; eauto.
  destruct (decide (s = "mixed")) as [->|Hs]; simpl; [eauto|].
  rewrite bool_decide_eq_false_2; [simpl; eauto|].
  by intros ->%list_elem_of_singleton.
Qed.

Lemma attach_all_eq l m :
  attach_all fs guess_type l m =
  match first_missing fs l with
  | Some f => Raise (FileNotFoundError ("Allegato non trovato: " +:+ path_str f))
  | None => Ok (foldl (attached fs guess_type) m l)
  end.
Proof.
  revert m. induction l as [|f l IH]; intros m; simpl; [done|].
  unfold missing. destruct (negb _ || negb _); [done|].
  destruct (guess_mime_type guess_type f) as [mt st] eqn:Hg.
  destruct (add_attachment_ok (read_bytes fs (path_str f)) mt st (path_name f) m)
    as (c & -> & ->).
  simpl. rewrite IH. destruct (first_missing fs l); [done|].
  f_equal. f_equal. unfold attached, attachment_of. by rewrite Hg.
Qed.

Lemma foldl_attached_headers l m : headers (foldl (attached fs guess_type) m l) = headers m.
Proof. revert m. induction l as [|f l IH]; intros m; simpl; [done|]. by rewrite IH. Qed.

Lemma foldl_attached_mixed l m ps :
  content m = Some (Multipart "mixed" ps) →
  content (foldl (attached fs guess_type) m l)
  = Some (Multipart "mixed" (ps ++ map (attachment_of fs guess_type) l)).
Proof.
  revert m ps. induction l as [|f l IH]; intros m ps Hm; simpl.
  - by rewrite app_nil_r.
  - rewrite (IH (attached fs guess_type m f) (ps ++ [attachment_of fs guess_type f])).
    + by rewrite <- app_assoc.
    + unfold attached. by rewrite Hm.
Qed.

Lemma foldl_attached_body l m text html :
  content m = Some (body_of text html) →
  content (foldl (attached fs guess_type) m l)
  = Some (content_of (body_of text html) (map (attachment_of fs guess_type) l)).
Proof.
  intros Hm. destruct l as [|f l]; simpl; [done|].
  rewrite (foldl_attached_mixed l (attached fs guess_type m f)
             [body_of text html; attachment_of fs guess_type f]); [reflexivity|].
  unfold attached. rewrite Hm. unfold body_of.
  destruct html as [h|]; [destruct (Str.truthy h)|]; simpl; try done.
Qed.

(** [build_message], case by case. *)
Lemma build_message_eq from_address from_name to subject text html cc bcc reply_to
    attachments :
  build_message fs guess_type formataddr from_address from_name to subject text html
    cc bcc reply_to attachments =
  match first_missing fs (default [] attachments) with
  | Some f => Raise (FileNotFoundError ("Allegato non trovato: " +:+ path_str f))
  | None =>
      Ok {| headers := header_list formataddr from_address from_name to subject cc reply_to;
            content := Some (content_of (body_of text html)
                               (map (attachment_of fs guess_type) (default [] attachments)));
            all_recipients := Some (recipients_of to cc bcc) |}
  end.
Proof.
  unfold build_message.
  set (m0 := match reply_to with Some r => _ | None => _ end).
  assert (Hh : headers m0 = header_list formataddr from_address from_name to subject cc reply_to).
  { unfold m0, header_list.
    destruct cc as [[|c cs]|], reply_to as [r|]; try destruct (Str.truthy r);
      reflexivity. }
  assert (Hb : (match html with
                | Some h => if Str.truthy h then add_alternative h (set_content text m0)
                            else Ok (set_content text m0)
                | None => Ok (set_content text m0)
                end) = Ok (with_content (body_of text html) m0)).
  { unfold body_of. destruct html as [h|]; [destruct (Str.truthy h)|]; reflexivity. }
  rewrite Hb. simpl. rewrite attach_all_eq.
  destruct (first_missing fs (default [] attachments)); simpl; [done|].
  rewrite foldl_attached_headers, (foldl_attached_body _ _ text html) by done.
  simpl. by rewrite Hh.
Qed.



(** C1. A built message carries, as its delivery recipients, a list
    without repetitions whose members are exactly the addresses of To, Cc
    and Bcc; [send_smtp] on a message whose recipient list is empty (or
    absent) raises the no-recipients [ValueError] with no call made to the
    SMTP library, and the message built from three empty lists is such a
    message. *)
Theorem C1_delivery_recipients from_address from_name to subject text html cc bcc
    reply_to attachments (m : EmailMessage) :
  build_message fs guess_type formataddr from_address from_name to subject text html
    cc bcc reply_to attachments = Ok m →
  (∃ rcpts, all_recipients m = Some rcpts
     ∧ NoDup rcpts
     ∧ ∀ a, a ∈ rcpts ↔ a ∈ to ∨ a ∈ default [] cc ∨ a ∈ default [] bcc)
  ∧ (∀ env cafile_default peer (msg : EmailMessage) user password host port
       encryption cafile insecure trace,
       default [] (all_recipients msg) = [] →
       send_smtp env cafile_default peer msg user password host port encryption
         cafile insecure trace
       = (trace, Raise (ValueError (Message "Nessun destinatario (To/Cc/Bcc) indicato."))))
  ∧ (to = [] → default [] cc = [] → default [] bcc = [] →
     default [] (all_recipients m) = []).
Proof.
  rewrite build_message_eq.
  destruct (first_missing fs (default [] attachments)); [discriminate|].
  intros [= <-]. cbn [all_recipients]. split; [|split].
  - exists (recipients_of to cc bcc). split; [done|]. split.
    + apply NoDup_elements.
    + intros a. unfold recipients_of.
      rewrite elem_of_elements, !elem_of_union, !elem_of_list_to_set. tauto.
  - intros env cafile_default peer msg user password host port encryption cafile
      insecure trace Hempty.
    unfold send_smtp. by rewrite Hempty.
  - intros -> Hcc Hbcc. unfold recipients_of. rewrite Hcc, Hbcc. simpl.
    rewrite !(left_id_L ∅ (∪)). apply elements_empty.
Qed.


(** C5, as amended. A successful build with a non-empty HTML body has, as
    its body, a multipart/alternative of the plain text followed by the
    HTML; with no HTML body, or an empty one, the body is the plain-text
    part alone. The body is the whole content when nothing is attached and
    the first part of a multipart/mixed, before the attachments,
    otherwise. *)
Theorem C5_html_alternative from_address from_name to subject text html cc bcc
    reply_to attachments (m : EmailMessage) :
  build_message fs guess_type formataddr from_address from_name to subject text html
    cc bcc reply_to attachments = Ok m →
  (∀ h, html = Some h → h ≠ "" →
     content m = Some (content_of
                         (Multipart "alternative" [Text "plain" text; Text "html" h])
                         (map (attachment_of fs guess_type) (default [] attachments))))
  ∧ (html = None ∨ html = Some "" →
     content m = Some (content_of (Text "plain" text)
                         (map (attachment_of fs guess_type) (default [] attachments)))).
Proof.
  rewrite build_message_eq.
  destruct (first_missing fs (default [] attachments)); [discriminate|].
  intros [= <-]. simpl. split.
  - intros h -> Hh%truthy_true. unfold body_of. by rewrite Hh.
  - by intros [-> | ->].
Qed.

(** C8. The Bcc list reaches nothing but the recipient attribute: two
    builds that differ only in Bcc raise the same exception or return
    messages with the same headers and the same content, and every header
    of a built message is one of From, To, Cc, Subject, Reply-To. *)
Theorem C8_bcc_confined from_address from_name to subject text html cc
    (bcc bcc' : option (list string)) reply_to attachments :
  match build_message fs guess_type formataddr from_address from_name to subject text
          html cc bcc reply_to attachments,
        build_message fs guess_type formataddr from_address from_name to subject text
          html cc bcc' reply_to attachments with
  | Ok m, Ok m' =>
      headers m = headers m' ∧ content m = content m'
      ∧ Forall (λ h, h.1 ∈ ["From"; "To"; "Cc"; "Subject"; "Reply-To"]) (headers m)
  | Raise e, Raise e' => e = e'
  | _, _ => False
  end.
Proof.
  rewrite !build_message_eq.
  destruct (first_missing fs (default [] attachments)); [done|].
  simpl. repeat split. unfold header_list.
  destruct cc as [[|c cs]|], reply_to as [r|]; try destruct (Str.truthy r);
    repeat constructor; simpl; set_solver.
Qed.

End BuildProperties.

(** ** Command line *)

Section ParserProperties.
Variable p : list argument.

Lemma parse_optional_in name a : parse_optional p name = Ok (Some a) → a ∈ p.
Proof.
  unfold parse_optional, find_exact.
  destruct (list_find _ p) as [[i x]|] eqn:Hfind; simpl.
  - intros [= <-]. apply list_find_Some in Hfind as (Hx & _).
    by eapply list_elem_of_lookup_2.
  - destruct (String.length name <? 3)%nat; [discriminate|].
    destruct (abbreviations p name) as [|x [|y l]] eqn:Habb; try discriminate.
    intros [= <-].
    assert (Hx : x ∈ abbreviations p name) by (rewrite Habb; apply list_elem_of_here).
    unfold abbreviations in Hx. by apply list_elem_of_filter in Hx as [_ Hx].
Qed.







End ParserProperties.








Example build_sample :
  build_message fs_sample guess_type_sample formataddr_sample "me@x.com" "Me"
    ["a@x.com"; "b@x.com"] "Hi" "Hello" None (Some ["c@x.com"; "a@x.com"])
    (Some ["d@x.com"]) None (Some ["./report.pdf"])
  = Ok msg_sample.
Proof. vm_compute. reflexivity. Qed.

Lemma C1_delivery_recipients_witness :
  ∃ rcpts, all_recipients msg_sample = Some rcpts
    ∧ NoDup rcpts
    ∧ ∀ a, a ∈ rcpts ↔
           a ∈ ["a@x.com"; "b@x.com"] ∨ a ∈ ["c@x.com"; "a@x.com"] ∨ a ∈ ["d@x.com"].
Proof.
  refine (proj1 (C1_delivery_recipients fs_sample guess_type_sample formataddr_sample
                   "me@x.com" "Me" ["a@x.com"; "b@x.com"] "Hi" "Hello" None
                   (Some ["c@x.com"; "a@x.com"]) (Some ["d@x.com"]) None
                   (Some ["./report.pdf"]) msg_sample _)).
  vm_compute. reflexivity.
Defined.


Example missing_names_directory :
  build_message fs_sample guess_type_sample formataddr_sample "me@x.com" "Me"
    ["a@x.com"] "Hi" "Hello" None None None None
    (Some ["./report.pdf"; "docs"; "nope.txt"])
  = Raise (FileNotFoundError "Allegato non trovato: docs").
Proof. vm_compute. reflexivity. Qed.

Lemma C5_html_alternative_witness :
  ∃ m, build_message fs_sample guess_type_sample formataddr_sample "me@x.com" ""
         ["a@x.com"] "Hi" "Hello" (Some "<p>Hello</p>") None None None None = Ok m
    ∧ content m = Some (Multipart "alternative"
                          [Text "plain" "Hello"; Text "html" "<p>Hello</p>"]).
Proof.
  exists {| headers := [("From", "me@x.com"); ("To", "a@x.com"); ("Subject", "Hi")];
            content := Some (Multipart "alternative"
                               [Text "plain" "Hello"; Text "html" "<p>Hello</p>"]);
            all_recipients := Some (recipients_of ["a@x.com"] None None) |}.
  split; [vm_compute; reflexivity|].
  refine (proj1 (C5_html_alternative fs_sample guess_type_sample formataddr_sample
                   "me@x.com" "" ["a@x.com"] "Hi" "Hello" (Some "<p>Hello</p>")
                   None None None None _ _) "<p>Hello</p>" eq_refl _).
  - vm_compute. reflexivity.
  - discriminate.
Defined.

(** C5, as stated, fails: an HTML body is supplied, the empty string, and
    the message built is the plain-text part alone, not a multipart. *)
Lemma C5_counterexample :
  ∃ m, build_message fs_sample guess_type_sample formataddr_sample "me@x.com" ""
         ["a@x.com"] "Hi" "Hello" (Some "") None None None None = Ok m
    ∧ content m = Some (Text "plain" "Hello")
    ∧ ∀ subtype parts, content m ≠ Some (Multipart subtype parts).
Proof.
  exists {| headers := [("From", "me@x.com"); ("To", "a@x.com"); ("Subject", "Hi")];
            content := Some (Text "plain" "Hello");
            all_recipients := Some (recipients_of ["a@x.com"] None None) |}.
  split; [vm_compute; reflexivity|]. split; [reflexivity|]. discriminate.
Qed.

(** ** The SMTP session *)

Section SessionProperties.
Variable env : environ.
Variable cafile_default : option string.
Variable peer : list smtp_call → smtp_call → option exn.

Lemma run_app cs1 cs2 trace :
  run peer (cs1 ++ cs2) trace = (run peer cs1;; run peer cs2) trace.
Proof.
  revert trace. induction cs1 as [|c cs1 IH]; intros trace; simpl; [done|].
  unfold mbind, session_bind, call. destruct (peer trace c); [done|]. apply IH.
Qed.

(** [run] extends the trace by a prefix of its calls: all of them when it
    returns, and up to the call that raised, whose exception it passes on,
    otherwise. *)
Lemma run_prefix cs trace :
  ∃ k, (run peer cs trace).1 = trace ++ take k cs
    ∧ match (run peer cs trace).2 with
      | Ok _ => take k cs = cs
      | Raise e => ∃ pre c, take k cs = pre ++ [c] ∧ peer (trace ++ pre) c = Some e
      end.
Proof.
  revert trace. induction cs as [|c cs IH]; intros trace; simpl.
  - exists 0%nat. by rewrite app_nil_r.
  - unfold mbind, session_bind, call. destruct (peer trace c) as [e|] eqn:Hc.
    + exists 1%nat. simpl. split; [by rewrite take_0|].
      exists [], c. rewrite take_0, app_nil_r. by split.
    + destruct (IH (trace ++ [c])) as (k & Ht & Hr).
      exists (S k). simpl. rewrite Ht, <- app_assoc. split; [done|].
      destruct (run peer cs (trace ++ [c])).2 as [[]|e].
      * by rewrite Hr.
      * destruct Hr as (pre & c' & -> & Hp). exists (c :: pre), c'.
        split; [done|]. by rewrite <- app_assoc in Hp.
Qed.

Lemma run_single c trace : run peer [c] trace = call peer c trace.
Proof.
  simpl. unfold mbind, session_bind, call, mret, session_ret.
  by destruct (peer trace c).
Qed.

Lemma bind_ext (a a' b b' : session unit) :
  (∀ t, a t = a' t) → (∀ t, b t = b' t) → ∀ t, (a;; b) t = (a';; b') t.
Proof.
  intros Ha Hb t. unfold mbind, session_bind. rewrite Ha.
  destruct (a' t) as [t' [[]|e]]; [apply Hb | done].
Qed.

Lemma login_if_run user password trace :
  login_if peer user password trace = run peer (login_calls user password) trace.
Proof.
  unfold login_if, login_calls. destruct (Str.truthy user); [|done].
  by rewrite run_single.
Qed.

(** [send_smtp] with a recipient opens the connection and runs the calls of
    the block. *)
Lemma send_smtp_script msg user password host port encryption cafile insecure trace :
  default [] (all_recipients msg) ≠ [] →
  send_smtp env cafile_default peer msg user password host port encryption cafile
    insecure trace
  = with_server peer (connect_call env cafile_default host port encryption cafile insecure)
      (run peer (body_calls env cafile_default msg user password encryption cafile
                   insecure)) trace.
Proof.
  intros Hne. unfold send_smtp, connect_call, body_calls.
  destruct (default [] (all_recipients msg)) as [|r rs] eqn:Hr; [done|].
  fold (mode_of encryption).
  assert (Htail : ∀ t,
    (login_if peer user password;; call peer (SendMessage msg (r :: rs))) t
    = run peer (login_calls user password ++ [SendMessage msg (r :: rs)]) t).
  { intros t. rewrite run_app. apply bind_ext; intros t'.
    - apply login_if_run.
    - by rewrite run_single. }
  unfold with_server.
  destruct (decide (mode_of encryption = "ssl")) as [Hssl|Hssl];
    destruct (call peer _ trace) as [trace1 [[]|e]]; try done.
  - simpl app. by rewrite Htail.
  - replace (run peer _ trace1) with
      ((call peer Ehlo;;
        (if decide (mode_of encryption = "tls")
         then call peer (StartTLS (_build_ssl_context env cafile_default cafile insecure));;
              call peer Ehlo
         else mret ());;
        login_if peer user password;;
        call peer (SendMessage msg (r :: rs))) trace1); [done|].
    change (Ehlo :: ?l) with ([Ehlo] ++ l). rewrite <- app_assoc, run_app.
    apply bind_ext; intros t; [by rewrite run_single|].
    rewrite run_app. apply bind_ext; [|done].
    intros t'. destruct (decide (mode_of encryption = "tls")); [|done].
    change [StartTLS ?c; Ehlo] with ([StartTLS c] ++ [Ehlo]). rewrite run_app.
    apply bind_ext; intros t''; by rewrite run_single.
Qed.

(** The calls a session adds to the trace: the connection alone when it
    failed, and otherwise the connection, the first [k] calls of the block
    and the closing. *)
Lemma send_smtp_shape msg user password host port encryption cafile insecure trace :
  default [] (all_recipients msg) ≠ [] →
  let connect := connect_call env cafile_default host port encryption cafile insecure in
  let body := body_calls env cafile_default msg user password encryption cafile insecure in
  let out := send_smtp env cafile_default peer msg user password host port encryption
               cafile insecure trace in
  (∃ e, peer trace connect = Some e ∧ out = (trace ++ [connect], Raise e))
  ∨ (peer trace connect = None
     ∧ ∃ k, out.1 = trace ++ connect :: take k body ++ [Close]
       ∧ match out.2 with
         | Ok _ => take k body = body
         | Raise e =>
             peer (trace ++ connect :: take k body) Close = Some e
             ∨ (peer (trace ++ connect :: take k body) Close = None
                ∧ ∃ pre c, take k body = pre ++ [c]
                  ∧ peer (trace ++ connect :: pre) c = Some e)
         end).
Proof.
  intros Hne connect body out. unfold out. rewrite send_smtp_script by done.
  fold connect body. unfold with_server, call.
  destruct (peer trace connect) as [e|] eqn:Hc; [left; eauto|].
  right. split; [done|].
  destruct (run_prefix body (trace ++ [connect])) as (k & Ht & Hr).
  destruct (run peer body (trace ++ [connect])) as [trace2 r] eqn:Hrun.
  simpl in Ht, Hr. subst trace2. exists k.
  rewrite <- !app_assoc. simpl.
  destruct (peer (trace ++ connect :: take k body) Close) as [e'|] eqn:Hclose;
    simpl; [split; [done|by left]|].
  split; [done|]. destruct r as [[]|e]; [done|].
  right. split; [done|]. destruct Hr as (pre & c & Hk & Hp).
  exists pre, c. split; [done|]. by rewrite <- app_assoc in Hp.
Qed.

Lemma send_smtp_new_calls msg user password host port encryption cafile insecure trace new c :
  (send_smtp env cafile_default peer msg user password host port encryption cafile
     insecure trace).1 = trace ++ new →
  c ∈ new →
  c = connect_call env cafile_default host port encryption cafile insecure
  ∨ c ∈ body_calls env cafile_default msg user password encryption cafile insecure
  ∨ c = Close.
Proof.
  intros Hnew Hc.
  destruct (decide (default [] (all_recipients msg) = [])) as [Hempty|Hne].
  - unfold send_smtp in Hnew. rewrite Hempty in Hnew. simpl in Hnew.
    rewrite <- (app_nil_r trace) in Hnew at 1. apply app_inv_head in Hnew as <-.
    by apply elem_of_nil in Hc.
  - destruct (send_smtp_shape msg user password host port encryption cafile insecure
                trace Hne) as [(e & _ & Hout)|(_ & k & Hout & _)].
    + rewrite Hout in Hnew. simpl in Hnew. apply app_inv_head in Hnew as <-.
      apply list_elem_of_singleton in Hc. by left.
    + rewrite Hout in Hnew. apply app_inv_head in Hnew as <-.
      apply elem_of_cons in Hc as [->|Hc]; [by left|].
      apply elem_of_app in Hc as [Hc|Hc].
      * right; left. by eapply subseteq_take.
      * apply list_elem_of_singleton in Hc. by right; right.
Qed.





(** X5. [send_smtp] logs in only when the user name is not empty, and then
    with the user name and the password it was given. *)
Theorem send_smtp_login_only_with_user msg user password host port encryption cafile
    insecure trace new u p :
  (send_smtp env cafile_default peer msg user password host port encryption cafile
     insecure trace).1 = trace ++ new →
  Login u p ∈ new →
  user ≠ "" ∧ u = user ∧ p = password.
Proof.
  intros Hnew Hin.
  destruct (send_smtp_new_calls _ _ _ _ _ _ _ _ _ _ _ Hnew Hin) as [Hc|[Hc|Hc]].
  - unfold connect_call in Hc. by case_decide.
  - unfold body_calls, login_calls in Hc.
    destruct (Str.truthy user) eqn:Hu;
      destruct (decide (mode_of encryption = "ssl")),
        (decide (mode_of encryption = "tls")); simpl in Hc;
      repeat (apply elem_of_cons in Hc as [Hc|Hc]; [try discriminate|]);
      try (by apply elem_of_nil in Hc);
      injection Hc as -> ->; by apply truthy_true in Hu.
  - discriminate.
Qed.

(** X6. In a mode that is neither ssl nor tls (none, or any other string
    handed to [send_smtp]) the session is plain: no implicit-TLS connection
    and no STARTTLS upgrade is made. *)
Theorem send_smtp_plain_outside_ssl_tls msg user password host port encryption cafile
    insecure trace new :
  mode_of encryption ≠ "ssl" →
  mode_of encryption ≠ "tls" →
  (send_smtp env cafile_default peer msg user password host port encryption cafile
     insecure trace).1 = trace ++ new →
  (∀ context, StartTLS context ∉ new)
  ∧ (∀ h q context, ConnectSSL h q context ∉ new).
Proof.
  intros Hssl Htls Hnew.
  assert (Hcalls : ∀ c, c ∈ new →
    c = Connect host port ∨ c = Ehlo ∨ c = Close
    ∨ (∃ u q, c = Login u q) ∨ (∃ m r, c = SendMessage m r)).
  { intros c Hin.
    destruct (send_smtp_new_calls _ _ _ _ _ _ _ _ _ _ _ Hnew Hin) as [Hc|[Hc|Hc]].
    - unfold connect_call in Hc. rewrite decide_False in Hc by done. by left.
    - unfold body_calls, login_calls in Hc.
      rewrite !decide_False in Hc by done.
      destruct (Str.truthy user); simpl in Hc;
        repeat (apply elem_of_cons in Hc as [->|Hc]; [by eauto 10|]);
        by apply elem_of_nil in Hc.
    - by right; right; left. }
  split.
  - intros context Hin.
    destruct (Hcalls _ Hin) as [?|[?|[?|[(?&?&?)|(?&?&?)]]]]; discriminate.
  - intros h q context Hin.
    destruct (Hcalls _ Hin) as [?|[?|[?|[(?&?&?)|(?&?&?)]]]]; discriminate.
Qed.

(** X7. In tls mode, when the server refuses the STARTTLS upgrade,
    neither the credentials nor the message are sent. *)
Theorem send_smtp_starttls_refused msg user password host port encryption cafile
    insecure trace new :
  mode_of encryption = "tls" →
  (∀ t context, peer t (StartTLS context) ≠ None) →
  (send_smtp env cafile_default peer msg user password host port encryption cafile
     insecure trace).1 = trace ++ new →
  (∀ u p, Login u p ∉ new) ∧ (∀ m r, SendMessage m r ∉ new).
Proof.
  intros Htls Hrefuse Hnew.
  assert (Hcalls : ∀ c, c ∈ new →
    c = Connect host port ∨ c = Ehlo ∨ c = Close ∨ ∃ context, c = StartTLS context).
  { destruct (decide (default [] (all_recipients msg) = [])) as [Hempty|Hne].
    - unfold send_smtp in Hnew. rewrite Hempty in Hnew. simpl in Hnew.
      rewrite <- (app_nil_r trace) in Hnew at 1. apply app_inv_head in Hnew as <-.
      by intros c ?%elem_of_nil.
    - rewrite send_smtp_script in Hnew by done.
      unfold connect_call, body_calls, with_server, call in Hnew.
      rewrite Htls in Hnew. simpl in Hnew.
      destruct (peer trace (Connect host port)).
      { simpl in Hnew. apply app_inv_head in Hnew as <-.
        intros c ->%list_elem_of_singleton. by left. }
      unfold mbind, session_bind, call in Hnew.
      destruct (peer (trace ++ [Connect host port]) Ehlo).
      { destruct (peer _ Close); simpl in Hnew;
          rewrite <- !app_assoc in Hnew; apply app_inv_head in Hnew as <-;
          intros c Hc; repeat (apply elem_of_cons in Hc as [->|Hc]; [by eauto|]);
          by apply elem_of_nil in Hc. }
      destruct (peer ((trace ++ [Connect host port]) ++ [Ehlo]) (StartTLS _))
        eqn:Hs; [|by apply Hrefuse in Hs].
      destruct (peer _ Close); simpl in Hnew;
        rewrite <- !app_assoc in Hnew; apply app_inv_head in Hnew as <-;
        intros c Hc; repeat (apply elem_of_cons in Hc as [->|Hc]; [by eauto 10|]);
        by apply elem_of_nil in Hc. }
  split.
  - intros u p Hin. destruct (Hcalls _ Hin) as [?|[?|[?|(?&?)]]]; discriminate.
  - intros m r Hin. destruct (Hcalls _ Hin) as [?|[?|[?|(?&?)]]]; discriminate.
Qed.

Lemma split_at_unique {A} (P : A → Prop) (l1 : list A) x l2 pre y post :
  Forall (λ a, ¬ P a) l1 → Forall (λ a, ¬ P a) l2 → P y →
  l1 ++ x :: l2 = pre ++ y :: post → pre = l1 ∧ y = x ∧ post = l2.
Proof.
  intros H1 H2 Hy. revert pre. induction H1 as [|a l1 Ha H1 IH]; intros pre Heq.
  - destruct pre as [|b pre]; simpl in Heq; injection Heq as -> ->; [done|].
    exfalso. rewrite Forall_forall in H2. apply (H2 y); [|done].
    apply elem_of_app. right. apply list_elem_of_here.
  - destruct pre as [|b pre]; simpl in Heq; injection Heq as -> Heq; [done|].
    destruct (IH pre Heq) as (-> & -> & ->). done.
Qed.

(** X8. The message is transmitted at most once, as the last call before
    the connection is closed, and to exactly the recipients stored on the
    message. *)
Theorem send_smtp_sends_once msg user password host port encryption cafile insecure
    trace pre m r post :
  (send_smtp env cafile_default peer msg user password host port encryption cafile
     insecure trace).1 = trace ++ pre ++ SendMessage m r :: post →
  m = msg ∧ r = default [] (all_recipients msg)
  ∧ (∀ m' r', SendMessage m' r' ∉ pre)
  ∧ post = [Close].
Proof.
  intros Hnew.
  destruct (decide (default [] (all_recipients msg) = [])) as [Hempty|Hne].
  { unfold send_smtp in Hnew. rewrite Hempty in Hnew. simpl in Hnew.
    rewrite <- (app_nil_r trace) in Hnew at 1. apply app_inv_head in Hnew.
    by destruct pre. }
  set (connect := connect_call env cafile_default host port encryption cafile insecure).
  set (before := (if decide (mode_of encryption = "ssl") then []
                  else Ehlo ::
                       (if decide (mode_of encryption = "tls")
                        then [StartTLS (_build_ssl_context env cafile_default cafile
                                          insecure); Ehlo]
                        else []))
                 ++ login_calls user password).
  assert (Hbody : body_calls env cafile_default msg user password encryption cafile
                    insecure
                  = before ++ [SendMessage msg (default [] (all_recipients msg))]).
  { unfold body_calls, before. by rewrite app_assoc. }
  assert (Hbefore : Forall (λ c, ¬ is_send c) (connect :: before)).
  { unfold connect, connect_call, before, login_calls.
    destruct (decide (mode_of encryption = "ssl")),
      (decide (mode_of encryption = "tls")), (Str.truthy user); simpl;
      repeat constructor; by intros (? & ? & ?). }
  assert (Hsend : is_send (SendMessage m r)) by (by eexists _, _).
  destruct (send_smtp_shape msg user password host port encryption cafile insecure
              trace Hne) as [(e & _ & Hout)|(_ & k & Hout & _)].
  - rewrite Hout in Hnew. simpl in Hnew. apply app_inv_head in Hnew.
    fold connect in Hnew. exfalso.
    destruct pre as [|c [|??]]; simpl in Hnew; try discriminate.
    injection Hnew as Hc. apply Forall_cons in Hbefore as [Hcon _]. apply Hcon.
    rewrite Hc. done.
  - rewrite Hout in Hnew. apply app_inv_head in Hnew. fold connect in Hnew.
    rewrite Hbody in Hnew.
    destruct (decide (k ≤ length before)%nat) as [Hk|Hk].
    + exfalso. rewrite take_app_le in Hnew by done.
      assert (Hin : SendMessage m r ∈ connect :: take k before ++ [Close]).
      { rewrite Hnew. apply elem_of_app. right. apply list_elem_of_here. }
      apply elem_of_cons in Hin as [Hin|Hin].
      * apply Forall_cons in Hbefore as [Hcon _]. apply Hcon. by rewrite <- Hin.
      * apply elem_of_app in Hin as [Hin%subseteq_take|Hin%list_elem_of_singleton];
          [|discriminate].
        apply Forall_cons in Hbefore as [_ Hb]. rewrite Forall_forall in Hb.
        by apply (Hb _ Hin).
    + rewrite take_ge in Hnew by (rewrite length_app; simpl; lia).
      rewrite <- app_assoc in Hnew.
      change (connect :: before ++ ?l) with ((connect :: before) ++ l) in Hnew.
      simpl app at 2 in Hnew.
      assert (Hclose : Forall (λ c, ¬ is_send c) [Close])
        by (repeat constructor; by intros (? & ? & ?)).
      destruct (split_at_unique is_send (connect :: before)
                  (SendMessage msg (default [] (all_recipients msg))) [Close]
                  pre (SendMessage m r) post Hbefore Hclose Hsend Hnew)
        as (-> & [= -> ->] & ->).
      repeat split. intros m' r' Hin.
      rewrite Forall_forall in Hbefore. apply (Hbefore _ Hin). by eexists _, _.
Qed.

End SessionProperties.







Lemma send_smtp_login_only_with_user_witness :
  "me@x.com" ≠ "" ∧ "me@x.com" = "me@x.com" ∧ "pw" = "pw".
Proof.
  apply (send_smtp_login_only_with_user ∅ None accepting msg_one "me@x.com" "pw"
           "localhost" 25 "none" None false []
           [Connect "localhost" 25; Ehlo; Login "me@x.com" "pw";
            SendMessage msg_one ["a@x.com"]; Close]).
  - reflexivity.
  - do 2 apply list_elem_of_further. apply list_elem_of_here.
Defined.

Lemma send_smtp_plain_outside_ssl_tls_witness :
  (∀ context,
     StartTLS context ∉ [Connect "localhost" 25; Ehlo; SendMessage msg_one ["a@x.com"];
                         Close])
  ∧ (∀ h q context,
       ConnectSSL h q context ∉ [Connect "localhost" 25; Ehlo;
                                 SendMessage msg_one ["a@x.com"]; Close]).
Proof.
  apply (send_smtp_plain_outside_ssl_tls ∅ None accepting msg_one "" "" "localhost" 25
           "starttls" None false []).
  - vm_compute. discriminate.
  - vm_compute. discriminate.
  - reflexivity.
Defined.

Lemma send_smtp_starttls_refused_witness :
  (∀ u p, Login u p ∉ [Connect "smtp.x.com" 587; Ehlo;
                       StartTLS (_build_ssl_context ∅ None None false); Close])
  ∧ (∀ m r, SendMessage m r ∉ [Connect "smtp.x.com" 587; Ehlo;
                               StartTLS (_build_ssl_context ∅ None None false); Close]).
Proof.
  apply (send_smtp_starttls_refused ∅ None refusing_starttls msg_one "me@x.com" "pw"
           "smtp.x.com" 587 "tls" None false []).
  - reflexivity.
  - intros t context. simpl. discriminate.
  - reflexivity.
Defined.

Lemma send_smtp_sends_once_witness :
  msg_one = msg_one ∧ ["a@x.com"] = default [] (all_recipients msg_one)
  ∧ (∀ m' r', SendMessage m' r' ∉ [Connect "localhost" 25; Ehlo])
  ∧ [Close] = [Close].
Proof.
  apply (send_smtp_sends_once ∅ None accepting msg_one "" "" "localhost" 25 "none" None
           false [] [Connect "localhost" 25; Ehlo] msg_one ["a@x.com"] [Close]).
  reflexivity.
Defined.

(** ** More on the TLS context and the configuration *)

(** X9. Whichever bundle is chosen, the context checks the host name and
    requires a valid certificate unless [insecure] is set, and does neither
    when it is. *)
Theorem insecure_alone_disables_verification (env : environ)
    (cafile_default cafile : option string) (insecure : bool) :
  ctx_check_hostname (_build_ssl_context env cafile_default cafile insecure)
  = negb insecure
  ∧ ctx_verify_mode (_build_ssl_context env cafile_default cafile insecure)
    = (if insecure then CERT_NONE else CERT_REQUIRED).
Proof.
  unfold _build_ssl_context.
  destruct (chosen_cafile env cafile_default cafile) as [p|];
    [destruct (Str.truthy p)|]; by destruct insecure.
Qed.

(** X10. [resolve_config] raises in one case only: MAIL_PORT is set to a
    non-empty string that [int] rejects, and the exception is that
    conversion's. Missing credentials, an unknown mode or a port given on
    the command line change nothing to it. *)
Theorem resolve_config_raises_iff (env : environ) (args : namespace) (e : exn) :
  resolve_config env args = Raise e ↔
  ∃ s, env !! "MAIL_PORT" = Some s ∧ s ≠ "" ∧ PyInt.parse s = None
       ∧ e = ValueError (IntConversion s).
Proof.
  split.
  - intros Hr. destruct (load_transport_from_env env) as [cfg|e'] eqn:Hload.
    { by rewrite (resolve_config_loaded _ _ _ Hload) in Hr. }
    rewrite (resolve_config_raise _ _ _ Hload) in Hr. injection Hr as ->.
    revert Hload. rewrite load_transport_from_env_port.
    unfold env_get, int_or_587.
    destruct (env !! "MAIL_PORT") as [s|] eqn:Hs; [|discriminate].
    destruct (decide (s = "")) as [->|Hne]; [discriminate|].
    apply truthy_true in Hne as Ht. rewrite Ht. unfold PyInt.int.
    destruct (PyInt.parse s) eqn:Hp; simpl; [discriminate|].
    intros [= <-]. by exists s.
  - intros (s & Hs & Hne & Hp & ->). apply resolve_config_raise.
    rewrite load_transport_from_env_port, (env_get_set _ _ _ _ Hs Hne).
    unfold int_or_587, PyInt.int. apply truthy_true in Hne. by rewrite Hne, Hp.
Qed.

(** X11. Whatever the environment and the command line say, the settings
    [resolve_config] returns have a mode among tls, ssl and none, a
    non-empty host and a non-zero port; the sender address is empty only
    when the user name is, and the message settings repeat the sender of
    the transport settings. *)
Theorem resolve_config_normalised (env : environ) (args : namespace)
    (tr : transport) (mc : msg_cfg) :
  resolve_config env args = Ok (tr, mc) →
  tr_encryption tr ∈ modes
  ∧ tr_host tr ≠ ""
  ∧ tr_port tr ≠ 0
  ∧ (tr_from_address tr = "" → tr_user tr = "")
  ∧ msg_from_address mc = tr_from_address tr
  ∧ msg_from_name mc = tr_from_name tr.
Proof.
  intros Hr. destruct (load_transport_from_env env) as [cfg|e'] eqn:Hload.
  - rewrite (resolve_config_loaded _ _ _ Hload) in Hr. injection Hr as <- <-.
    simpl. repeat split; try (case_decide; done).
    case_decide; [done|]. by apply is_mode_true.
  - by rewrite (resolve_config_raise _ _ _ Hload) in Hr.
Qed.

Lemma resolve_config_normalised_witness :
  "tls" ∈ modes
  ∧ "smtp.mail.yahoo.com" ≠ ""
  ∧ 587 ≠ 0
  ∧ ("me@x.com" = "" → "me@x.com" = "")
  ∧ "me@x.com" = "me@x.com"
  ∧ "" = "".
Proof.
  apply (resolve_config_normalised {["MAIL_ENCRYPTION" := "starttls"]} args_blank
           {| tr_user := "me@x.com"; tr_password := ""; tr_host := "smtp.mail.yahoo.com";
              tr_port := 587; tr_encryption := "tls"; tr_from_name := "";
              tr_from_address := "me@x.com"; tr_cafile := None; tr_insecure := false |}
           {| msg_from_address := "me@x.com"; msg_from_name := "" |}).
  vm_compute. reflexivity.
Defined.





(** YAHOO_EMAIL is read without that rule: set to the empty string it
    leaves the user name empty, unset it gives the built-in address. *)
Example empty_yahoo_email_is_kept :
  cfg_user <$> load_transport_from_env {["YAHOO_EMAIL" := ""]} = Ok ""
  ∧ cfg_user <$> load_transport_from_env ∅ = Ok "antonio.trento@yahoo.com".
Proof. split; reflexivity. Qed.

(** ** What [parse_args] accepts and what it returns *)

Lemma take_action_ok_iff a arg ns :
  (∃ ns', take_action a arg ns = Ok ns') ↔ action_ok a arg = true.
Proof.
  unfold take_action, action_ok.
  destruct (act a), arg as [s|]; try destruct (get_value a s); simpl;
    split; try done; try (by intros [? ?]); eauto.
Qed.

Lemma take_action_insert a arg ns ns' :
  take_action a arg ns = Ok ns' → ∃ v, ns' = <[dest a := v]> ns.
Proof.
  unfold take_action.
  destruct (act a), arg as [s|]; try destruct (get_value a s); simpl;
    try discriminate; intros [= <-]; eauto.
Qed.

Lemma occurs_cons flag it argv :
  occurs flag (it :: argv)
  = (match it with Opt name _ => names flag name | Extra _ => false end)
    || occurs flag argv.
Proof. reflexivity. Qed.

(** One pass of [consume], summed up. *)
Lemma consume_summary items ns seen extras :
  match consume parser items ns seen extras with
  | Ok (ns', seen', extras') =>
      extras' = extras || negb (forallb accepted items)
      ∧ ∀ a, a ∈ parser →
          (option_string a ∈ seen' ↔
           option_string a ∈ seen ∨ occurs (option_string a) items = true)
  | Raise _ => forallb accepted items = false
  end.
Proof.
  revert ns seen extras.
  induction items as [|[name arg|w] items IH]; intros ns seen extras.
  - simpl. rewrite orb_false_r. split; [done|]. intros a _.
    split; [by left | by intros [?|?]].
  - simpl consume. cbn [forallb]. unfold accepted at 1 3.
    destruct (parse_optional parser name) as [[a|]|e] eqn:Hp;
      cbn -[occurs accepted names consume].
    + destruct (take_action a arg ns) as [ns1|e] eqn:Ht;
        cbn -[occurs accepted names consume].
      * assert (Hok : action_ok a arg = true)
          by (apply (take_action_ok_iff a arg ns); eauto).
        rewrite Hok. cbn -[occurs accepted names consume]. specialize (IH ns1 (option_string a :: seen) extras).
        destruct (consume parser items ns1 _ extras) as [[[ns' seen'] extras']|e];
          [|done].
        destruct IH as [He Hseen]. split; [done|].
        intros b Hb. rewrite (Hseen b Hb), occurs_cons, elem_of_cons, orb_true_iff.
        unfold names. rewrite Hp. rewrite bool_decide_eq_true. split.
        -- intros [[Heq|?]|?]; [right; left; done | by left | by right; right].
        -- intros [?|[Heq|?]]; [by left; right | left; left; done | by right].
      * destruct (action_ok a arg) eqn:Hok; [|done].
        apply (take_action_ok_iff a arg ns) in Hok as [ns1 Hns1]. congruence.
    + specialize (IH ns seen true).
      destruct (consume parser items ns seen true) as [[[ns' seen'] extras']|e];
        [|done].
      destruct IH as [He Hseen]. split; [by rewrite He, orb_true_r|].
      intros b Hb. rewrite (Hseen b Hb), occurs_cons. unfold names. rewrite Hp.
      done.
    + done.
  - simpl consume. specialize (IH ns seen true).
    destruct (consume parser items ns seen true) as [[[ns' seen'] extras']|e].
    + destruct IH as [He Hseen]. split; [by rewrite He, orb_true_r|].
      intros b Hb. by rewrite (Hseen b Hb).
    + done.
Qed.

Lemma missing_required_false seen :
  missing_required parser seen = false ↔ "--to" ∈ seen ∧ "--subject" ∈ seen.
Proof.
  unfold missing_required, parser. simpl.
  rewrite orb_false_r, orb_false_iff, !negb_false_iff, !bool_decide_eq_true. done.
Qed.


Lemma parser_distinct a b :
  a ∈ parser → b ∈ parser →
  a = b ∨ (option_string a ≠ option_string b ∧ dest a ≠ dest b).
Proof.
  unfold parser. intros Ha Hb.
  repeat (apply elem_of_cons in Ha as [->|Ha]); [..|by apply elem_of_nil in Ha];
    repeat (apply elem_of_cons in Hb as [->|Hb]); try (by apply elem_of_nil in Hb);
    first [left; reflexivity | right; split; discriminate].
Qed.

Section Attribute.
Variable a0 : argument.
Hypothesis a0_declared : a0 ∈ parser.

Lemma names_declared name :
  names (option_string a0) name = true ↔ parse_optional parser name = Ok (Some a0).
Proof.
  unfold names. destruct (parse_optional parser name) as [[a|]|e] eqn:Hp;
    [|split; discriminate..].
  rewrite bool_decide_eq_true. split; [|by intros [= ->]].
  intros Heq. destruct (parser_distinct a a0) as [->|[Hne _]];
    [by eapply parse_optional_in | done | done | done].
Qed.

Lemma names_other name a :
  parse_optional parser name = Ok (Some a) → a ≠ a0 →
  names (option_string a0) name = false ∧ dest a ≠ dest a0.
Proof.
  intros Hp Hne. destruct (parser_distinct a a0) as [->|[Hs Hd]];
    [by eapply parse_optional_in | done | done |].
  split; [|done]. unfold names. rewrite Hp. by apply bool_decide_eq_false.
Qed.

(** What a pass of [consume] leaves under the destination of [a0]. *)
Lemma consume_attribute items ns seen extras ns' seen' extras' :
  consume parser items ns seen extras = Ok (ns', seen', extras') →
  match act a0 with
  | store =>
      match last (values_of (option_string a0) items) with
      | Some s => ∃ v, get_value a0 s = Ok v ∧ ns' !! dest a0 = Some v
      | None => ns' !! dest a0 = ns !! dest a0
      end
  | append =>
      match values_of (option_string a0) items with
      | [] => ns' !! dest a0 = ns !! dest a0
      | l => ns' !! dest a0 = Some (VList (as_list (ns !! dest a0) ++ l))
      end
  | store_true =>
      ns' !! dest a0
      = if occurs (option_string a0) items then Some VTrue else ns !! dest a0
  end.
Proof.
  revert ns seen extras.
  induction items as [|[name arg|w] items IH]; intros ns seen extras.
  - intros [= <- _ _]. by destruct (act a0).
  - simpl consume.
    destruct (parse_optional parser name) as [[a|]|e] eqn:Hp;
      cbn -[occurs names consume values_of]; [| |discriminate].
    + destruct (take_action a arg ns) as [ns1|e] eqn:Ht;
        cbn -[occurs names consume values_of]; [|discriminate].
      intros Hc. specialize (IH _ _ _ Hc).
      destruct (decide (dest a = dest a0)) as [Hd|Hd].
      * assert (a = a0) as ->.
        { destruct (parser_distinct a a0) as [?|[_ ?]];
            [by eapply parse_optional_in | done | done | done]. }
        assert (Hn : names (option_string a0) name = true) by by apply names_declared.
        unfold take_action in Ht. rewrite occurs_cons, Hn.
        destruct (act a0), arg as [s|]; try discriminate; simpl values_of;
          rewrite ?Hn; simpl orb.
        -- destruct (get_value a0 s) as [v|] eqn:Hv; [|discriminate].
           injection Ht as <-. rewrite last_cons.
           destruct (last (values_of (option_string a0) items)); [done|].
           exists v. by rewrite IH, lookup_insert_eq.
        -- destruct (get_value a0 s) as [v|] eqn:Hv; [|discriminate].
           injection Ht as <-. rewrite lookup_insert_eq in IH. simpl in IH.
           destruct (values_of (option_string a0) items) as [|x l].
           ++ by rewrite IH.
           ++ rewrite IH. by rewrite <- app_assoc.
        -- injection Ht as <-. rewrite lookup_insert_eq in IH.
           by destruct (occurs (option_string a0) items).
      * assert (a ≠ a0) as Hne by congruence.
        destruct (names_other name a Hp Hne) as [Hn _].
        apply take_action_insert in Ht as [v ->].
        rewrite lookup_insert_ne in IH by done.
        rewrite occurs_cons, Hn. simpl orb.
        destruct (act a0), arg as [s|]; simpl values_of; rewrite ?Hn; exact IH.
    + intros Hc. specialize (IH _ _ _ Hc).
      assert (Hn : names (option_string a0) name = false)
        by (unfold names; by rewrite Hp).
      rewrite occurs_cons, Hn. simpl orb.
      destruct (act a0), arg as [s|]; simpl values_of; rewrite ?Hn; exact IH.
  - simpl consume. intros Hc. specialize (IH _ _ _ Hc).
    rewrite occurs_cons. simpl orb. exact IH.
Qed.

(** The same for a whole command line that parses. *)
Lemma parse_attribute argv ns :
  Argparse.parse parser argv = Ok ns →
  match act a0 with
  | store =>
      match last (values_of (option_string a0) argv) with
      | Some s => ∃ v, get_value a0 s = Ok v ∧ ns !! dest a0 = Some v
      | None => ns !! dest a0 = defaults parser !! dest a0
      end
  | append =>
      match values_of (option_string a0) argv with
      | [] => ns !! dest a0 = defaults parser !! dest a0
      | l => ns !! dest a0 = Some (VList (as_list (defaults parser !! dest a0) ++ l))
      end
  | store_true =>
      ns !! dest a0
      = if occurs (option_string a0) argv then Some VTrue
        else defaults parser !! dest a0
  end.
Proof.
  unfold Argparse.parse.
  destruct (consume parser argv (defaults parser) [] false)
    as [[[ns0 seen] extras]|e] eqn:Hc; cbn -[missing_required defaults];
    [|discriminate].
  case_match; [discriminate|]. intros [= <-].
  by eapply consume_attribute.
Qed.

End Attribute.

Lemma occurs_values a0 items :
  a0 ∈ parser → act a0 ≠ store_true →
  forallb accepted items = true →
  occurs (option_string a0) items = true →
  values_of (option_string a0) items ≠ [].
Proof.
  intros Hin Hact. induction items as [|[name arg|w] items IH]; [done| |].
  - cbn [forallb]. rewrite occurs_cons, andb_true_iff, orb_true_iff.
    intros [Hacc Hrest] Hocc. simpl values_of.
    destruct (names (option_string a0) name) eqn:Hn.
    + apply (names_declared a0 Hin) in Hn. unfold accepted in Hacc.
      rewrite Hn in Hacc. unfold action_ok in Hacc.
      destruct (act a0), arg as [s|]; done.
    + destruct Hocc as [?|Hocc]; [done|]. destruct arg; by apply IH.
  - cbn [forallb]. rewrite andb_true_iff. by intros [? _].
Qed.

Lemma parse_ok_accepted argv ns :
  Argparse.parse parser argv = Ok ns →
  forallb accepted argv = true
  ∧ occurs "--to" argv = true ∧ occurs "--subject" argv = true.
Proof.
  unfold Argparse.parse.
  pose proof (consume_summary argv (defaults parser) [] false) as Hsum.
  destruct (consume parser argv (defaults parser) [] false)
    as [[[ns0 seen] extras]|e]; cbn -[missing_required]; [|discriminate].
  destruct Hsum as [-> Hseen].
  destruct (missing_required parser seen) eqn:Hm; [discriminate|].
  apply missing_required_false in Hm as [Ht Hs].
  destruct (forallb accepted argv); [|discriminate]. intros _. split; [done|].
  split.
  - destruct (proj1 (Hseen (with_required (add_argument "--to" "to" append))
                       (list_elem_of_here _ _)) Ht) as [[]%elem_of_nil|?]; done.
  - assert (Hin : with_required (add_argument "--subject" "subject" store) ∈ parser)
      by (do 3 apply list_elem_of_further; apply list_elem_of_here).
    destruct (proj1 (Hseen _ Hin) Hs) as [[]%elem_of_nil|?]; done.
Qed.

(** Membership of the [n]-th declared option. *)
Ltac declared n :=
  match n with
  | O => apply list_elem_of_here
  | S ?m => apply list_elem_of_further; declared m
  end.

(** X14. In the namespace of a command line that parses, [to] holds the
    arguments of the --to occurrences, in their order, and there is at
    least one; [cc], [bcc] and [attachments] hold theirs in the same way,
    and are [None] when the option does not occur. *)
Theorem parse_args_collects_in_order (argv : list cli_item) (ns : namespace) :
  parse_args argv = Ok ns →
  args_to ns = Some (values_of "--to" argv)
  ∧ values_of "--to" argv ≠ []
  ∧ args_cc ns = list_or_none (values_of "--cc" argv)
  ∧ args_bcc ns = list_or_none (values_of "--bcc" argv)
  ∧ args_attachments ns = list_or_none (values_of "--attach" argv).
Proof.
  unfold parse_args.
  destruct (Argparse.parse parser argv) as [ns0|e] eqn:Hp; simpl; [|discriminate].
  intros [= <-]. unfold to_namespace, attr_list. simpl.
  destruct (parse_ok_accepted _ _ Hp) as (Hacc & Hto & _).
  assert (Hne : values_of "--to" argv ≠ []).
  { apply (occurs_values (with_required (add_argument "--to" "to" append)));
      [declared 0%nat | done..]. }
  pose proof (parse_attribute (with_required (add_argument "--to" "to" append))
                ltac:(declared 0%nat) _ _ Hp) as H0.
  pose proof (parse_attribute (add_argument "--cc" "cc" append)
                ltac:(declared 1%nat) _ _ Hp) as H1.
  pose proof (parse_attribute (add_argument "--bcc" "bcc" append)
                ltac:(declared 2%nat) _ _ Hp) as H2.
  pose proof (parse_attribute (add_argument "--attach" "attachments" append)
                ltac:(declared 6%nat) _ _ Hp) as H6.
  simpl in H0, H1, H2, H6.
  destruct (values_of "--to" argv); [done|].
  destruct (values_of "--cc" argv), (values_of "--bcc" argv),
    (values_of "--attach" argv); by rewrite H0, H1, H2, H6.
Qed.

(** The attribute a [store] option of type [str] leaves. *)
Lemma parse_store_str a0 argv ns :
  a0 ∈ parser → act a0 = store → type a0 = str →
  Argparse.parse parser argv = Ok ns →
  attr_str ns (dest a0)
  = match last (values_of (option_string a0) argv) with
    | Some s => Some s
    | None => attr_str (defaults parser) (dest a0)
    end.
Proof.
  intros Hin Hact Hty Hp. pose proof (parse_attribute a0 Hin _ _ Hp) as H.
  rewrite Hact in H. unfold attr_str.
  destruct (last (values_of (option_string a0) argv)) as [s|]; [|by rewrite H].
  destruct H as (v & Hv & ->). unfold get_value in Hv. rewrite Hty in Hv.
  simpl in Hv. destruct (choices a0); [case_bool_decide|]; try discriminate;
    by injection Hv as <-.
Qed.

(** The attribute of the [n]-th declared option, a [store] of a string. *)
Ltac stored a n Hp :=
  let H := fresh in
  pose proof (parse_store_str a _ _ ltac:(declared n) eq_refl eq_refl Hp) as H;
  simpl in H; rewrite H; by destruct (last _).

(** X15. An option that stores one value keeps the argument of its last
    occurrence: so do --subject (which occurs at least once), --html,
    --reply-to, --from-address, --from-name, --user, --password, --host,
    --encryption and --cafile, each [None] when absent; --text is the empty
    string when absent; --port is the integer its last argument
    converts to. *)
Theorem parse_args_last_occurrence_wins (argv : list cli_item) (ns : namespace) :
  parse_args argv = Ok ns →
  args_subject ns = last (values_of "--subject" argv)
  ∧ values_of "--subject" argv ≠ []
  ∧ args_text ns = Some (default "" (last (values_of "--text" argv)))
  ∧ args_html ns = last (values_of "--html" argv)
  ∧ args_reply_to ns = last (values_of "--reply-to" argv)
  ∧ args_from_address ns = last (values_of "--from-address" argv)
  ∧ args_from_name ns = last (values_of "--from-name" argv)
  ∧ args_user ns = last (values_of "--user" argv)
  ∧ args_password ns = last (values_of "--password" argv)
  ∧ args_host ns = last (values_of "--host" argv)
  ∧ args_encryption ns = last (values_of "--encryption" argv)
  ∧ args_cafile ns = last (values_of "--cafile" argv)
  ∧ args_port ns = last (values_of "--port" argv) ≫= PyInt.parse.
Proof.
  unfold parse_args.
  destruct (Argparse.parse parser argv) as [ns0|e] eqn:Hp; simpl; [|discriminate].
  intros [= <-]. unfold to_namespace. simpl.
  destruct (parse_ok_accepted _ _ Hp) as (Hacc & _ & Hsubject).
  split; [|split; [|split]]; [| | |repeat split].
  - stored (with_required (add_argument "--subject" "subject" store)) 3%nat Hp.
  - apply (occurs_values (with_required (add_argument "--subject" "subject" store)));
      [declared 3%nat | done..].
  - stored (with_default (VStr "") (add_argument "--text" "text" store)) 4%nat Hp.
  - stored (add_argument "--html" "html" store) 5%nat Hp.
  - stored (add_argument "--reply-to" "reply_to" store) 7%nat Hp.
  - stored (add_argument "--from-address" "from_address" store) 8%nat Hp.
  - stored (add_argument "--from-name" "from_name" store) 9%nat Hp.
  - stored (add_argument "--user" "user" store) 10%nat Hp.
  - stored (add_argument "--password" "password" store) 11%nat Hp.
  - stored (add_argument "--host" "host" store) 12%nat Hp.
  - stored (with_choices ["tls"; "ssl"; "none"] (add_argument "--encryption" "encryption" store)) 14%nat Hp.
  - stored (add_argument "--cafile" "cafile" store) 15%nat Hp.
  - pose proof (parse_attribute (with_type int (add_argument "--port" "port" store))
                  ltac:(declared 13%nat) _ _ Hp) as H.
    simpl in H. unfold attr_int.
    destruct (last (values_of "--port" argv)) as [s|]; [|by rewrite H].
    destruct H as (v & Hv & ->). unfold get_value in Hv. simpl in Hv.
    simpl. destruct (PyInt.parse s); simpl in Hv; try discriminate;
      by injection Hv as <-.
Qed.

(** X16. The switches: [insecure] and [dry_run] are true exactly when
    --insecure and --dry-run occur. *)
Theorem parse_args_switches (argv : list cli_item) (ns : namespace) :
  parse_args argv = Ok ns →
  args_insecure ns = occurs "--insecure" argv
  ∧ args_dry_run ns = occurs "--dry-run" argv.
Proof.
  unfold parse_args.
  destruct (Argparse.parse parser argv) as [ns0|e] eqn:Hp; simpl; [|discriminate].
  intros [= <-]. unfold to_namespace, attr_flag. simpl.
  pose proof (parse_attribute (add_argument "--insecure" "insecure" store_true)
                ltac:(declared 16%nat) _ _ Hp) as H1.
  pose proof (parse_attribute (add_argument "--dry-run" "dry_run" store_true)
                ltac:(declared 17%nat) _ _ Hp) as H2.
  simpl in H1, H2. rewrite H1, H2.
  by destruct (occurs "--insecure" argv), (occurs "--dry-run" argv).
Qed.

Example parse_args_repeated : parse_args argv_repeated = Ok args_repeated.
Proof. vm_compute. reflexivity. Qed.

Lemma parse_args_collects_in_order_witness :
  args_to args_repeated = Some (values_of "--to" argv_repeated)
  ∧ values_of "--to" argv_repeated ≠ []
  ∧ args_cc args_repeated = list_or_none (values_of "--cc" argv_repeated)
  ∧ args_bcc args_repeated = list_or_none (values_of "--bcc" argv_repeated)
  ∧ args_attachments args_repeated = list_or_none (values_of "--attach" argv_repeated).
Proof.
  apply (parse_args_collects_in_order argv_repeated args_repeated).
  vm_compute. reflexivity.
Defined.

Lemma parse_args_last_occurrence_wins_witness :
  args_subject args_repeated = Some "Hello"
  ∧ args_port args_repeated = Some 465.
Proof.
  pose proof (parse_args_last_occurrence_wins argv_repeated args_repeated
                ltac:(vm_compute; reflexivity)) as H.
  split; [apply H | apply H].
Defined.

Lemma parse_args_switches_witness :
  args_insecure args_repeated = occurs "--insecure" argv_repeated
  ∧ args_dry_run args_repeated = occurs "--dry-run" argv_repeated.
Proof.
  apply (parse_args_switches argv_repeated args_repeated).
  vm_compute. reflexivity.
Defined.

(** ** More on message assembly *)

Section BuildContents.
Context `{Pathlib}.
Variable fs : filesystem.
Variable guess_type : string → option (string * string).
Variable formataddr : string → string → string.

Lemma first_missing_none l :
  first_missing fs l = None →
  Forall (λ f, ∃ data, fs !! path_str f = Some (File data)) l.
Proof.
  induction l as [|f l IH]; simpl; [by constructor|].
  destruct (missing fs f) eqn:Hm; [discriminate|]. intros Hl.
  constructor; [|by apply IH].
  unfold missing, is_file in Hm. apply orb_false_iff in Hm as [_ Hf].
  apply negb_false_iff in Hf.
  destruct (fs !! path_str f) as [[data| |]|]; try discriminate. by exists data.
Qed.

Lemma attachments_in_content_of text html atts :
  attachments_in (content_of (body_of text html) atts) = atts.
Proof.
  destruct atts as [|a atts]; [|done]. unfold body_of. simpl.
  destruct html as [h|]; [destruct (Str.truthy h)|]; reflexivity.
Qed.

(** X17. A message that builds carries one attachment per path, in the
    order of the paths: each path is a regular file, and its attachment
    has the bytes of the file, the last component of the path as file
    name, and the guessed type, application/octet-stream when there is no
    guess. *)
Theorem build_message_attachments from_address from_name to subject text html cc bcc
    reply_to attachments (m : EmailMessage) :
  build_message fs guess_type formataddr from_address from_name to subject text html
    cc bcc reply_to attachments = Ok m →
  Forall2 (λ f a, ∃ data maintype subtype,
             fs !! path_str f = Some (File data)
             ∧ a = Attachment maintype subtype (path_name f) data
             ∧ (maintype, subtype)
               = default ("application", "octet-stream") (guess_type (path_str f)))
    (default [] attachments) (attachments_of m).
Proof.
  rewrite build_message_eq.
  destruct (first_missing fs (default [] attachments)) eqn:Hm; [discriminate|].
  intros [= <-]. unfold attachments_of. simpl.
  rewrite attachments_in_content_of. apply Forall2_fmap_r, Forall_Forall2_diag.
  eapply Forall_impl; [by apply first_missing_none|].
  intros f [data Hf]. unfold attachment_of, read_bytes, guess_mime_type.
  exists data.
  destruct (guess_type (path_str f)) as [[mt st]|]; simpl; rewrite Hf;
    eexists _, _; done.
Qed.

(** X18. The headers of a message that builds: From is the bare address
    when the display name is empty and the formatted pair otherwise, To
    and Cc are the addresses joined by a comma and a space, Cc is absent
    when the list is empty or missing, Reply-To is absent when it is empty
    or missing, and no header is set twice. *)
Theorem build_message_headers from_address from_name to subject text html cc bcc
    reply_to attachments (m : EmailMessage) :
  build_message fs guess_type formataddr from_address from_name to subject text html
    cc bcc reply_to attachments = Ok m →
  get "From" m = Some (if decide (from_name = "") then from_address
                       else formataddr from_name from_address)
  ∧ get "To" m = Some (Str.join ", " to)
  ∧ get "Subject" m = Some subject
  ∧ get "Cc" m = match cc with
                 | Some (c :: cs) => Some (Str.join ", " (c :: cs))
                 | _ => None
                 end
  ∧ get "Reply-To" m = match reply_to with
                       | Some r => if decide (r = "") then None else Some r
                       | None => None
                       end
  ∧ NoDup (headers m).*1.
Proof.
  rewrite build_message_eq.
  destruct (first_missing fs (default [] attachments)); [discriminate|].
  intros [= <-]. unfold get, header_list. cbn [headers].
  rewrite (truthy_decide from_name).
  assert (Hr : ∀ r, (if Str.truthy r then [("Reply-To", r)] else [])
                    = if decide (r = "") then [] else [("Reply-To", r)]).
  { intros r. by destruct r. }
  destruct cc as [[|c cs]|], reply_to as [r|]; rewrite ?Hr;
    try destruct (decide (r = ""));
    (repeat split; [reflexivity..|]);
    simpl; repeat (constructor; [rewrite ?elem_of_cons, elem_of_nil;
                                 intuition discriminate|]); constructor.
Qed.

End BuildContents.

Lemma build_message_attachments_witness :
  Forall2 (λ f a, ∃ data maintype subtype,
             fs_sample !! path_str f = Some (File data)
             ∧ a = Attachment maintype subtype (path_name f) data
             ∧ (maintype, subtype)
               = default ("application", "octet-stream") (guess_type_sample (path_str f)))
    ["./report.pdf"] (attachments_of msg_sample).
Proof.
  apply (build_message_attachments fs_sample guess_type_sample formataddr_sample
           "me@x.com" "Me" ["a@x.com"; "b@x.com"] "Hi" "Hello" None
           (Some ["c@x.com"; "a@x.com"]) (Some ["d@x.com"]) None (Some ["./report.pdf"])
           msg_sample).
  vm_compute. reflexivity.
Defined.

Lemma build_message_headers_witness :
  get "From" msg_sample = Some "Me <me@x.com>"
  ∧ get "To" msg_sample = Some "a@x.com, b@x.com"
  ∧ get "Subject" msg_sample = Some "Hi"
  ∧ get "Cc" msg_sample = Some "c@x.com, a@x.com"
  ∧ get "Reply-To" msg_sample = None
  ∧ NoDup (headers msg_sample).*1.
Proof.
  apply (build_message_headers fs_sample guess_type_sample formataddr_sample
           "me@x.com" "Me" ["a@x.com"; "b@x.com"] "Hi" "Hello" None
           (Some ["c@x.com"; "a@x.com"]) (Some ["d@x.com"]) None (Some ["./report.pdf"])
           msg_sample).
  vm_compute. reflexivity.
Defined.

(** ** The program *)

Lemma truthy_false s : Str.truthy s = false ↔ s = "".
Proof. destruct s; simpl; split; congruence. Qed.

Section MainProperties.
Context `{Pathlib}.
Variable env : environ.
Variable cafile_default : option string.
Variable fs : filesystem.
Variable guess_type : string → option (string * string).
Variable formataddr : string → string → string.
Variable peer : list smtp_call → smtp_call → option exn.
Variable typed : string.
Variable shown : string → string → string.

Local Abbreviation run_main :=
  (main env cafile_default fs guess_type formataddr peer typed shown).

Lemma asked_for_no_call tr c : Called c ∉ asked_for tr.
Proof.
  unfold asked_for. destruct (_ && _); [|apply not_elem_of_nil].
  by intros [=]%list_elem_of_singleton.
Qed.

Lemma asked_for_no_print tr t : Printed t ∉ asked_for tr.
Proof.
  unfold asked_for. destruct (_ && _); [|apply not_elem_of_nil].
  by intros [=]%list_elem_of_singleton.
Qed.



(** X20. With --dry-run the program makes no call to [smtplib], whatever
    the server would answer; when the configuration resolves and the
    message builds, it prints its report and returns. *)
Theorem main_dry_run_stays_offline (argv : list cli_item) (args : namespace) :
  parse_args argv = Ok args →
  args_dry_run args = true →
  (∀ c, Called c ∉ (run_main argv).1)
  ∧ (∀ tr mc msg,
       resolve_config env args = Ok (tr, mc) →
       build_message fs guess_type formataddr (msg_from_address mc) (msg_from_name mc)
         (default [] (args_to args)) (default "" (args_subject args))
         (default "" (args_text args)) (args_html args) (args_cc args) (args_bcc args)
         (args_reply_to args) (args_attachments args) = Ok msg →
       run_main argv
       = (asked_for tr ++ map Printed (dry_run_report env cafile_default shown msg tr),
          Ok ())).
Proof.
  intros Hp Hdry. unfold main. rewrite Hp. split.
  - intros c. destruct (resolve_config env args) as [[tr mc]|e]; [|apply not_elem_of_nil].
    fold (asked_for tr).
    destruct (build_message _ _ _ _ _ _ _ _ _ _ _ _ _) as [msg|e];
      [|apply asked_for_no_call].
    rewrite Hdry. cbn [fst]. rewrite elem_of_app. intros [Hin|Hin].
    + by apply asked_for_no_call in Hin.
    + apply list_elem_of_fmap in Hin as (t & [=] & _).
  - intros tr mc msg Hr Hb. rewrite Hr. fold (asked_for tr). by rewrite Hb, Hdry.
Qed.



(** X23. The password is asked for exactly when the resolved user name is
    not empty and the resolved password is; any login the run makes is for
    the resolved user, with the resolved password, or with what was typed
    when it was asked. *)
Theorem main_password_prompt (argv : list cli_item) (args : namespace)
    (tr : transport) (mc : msg_cfg) :
  parse_args argv = Ok args →
  resolve_config env args = Ok (tr, mc) →
  (∀ prompt, Asked prompt ∈ (run_main argv).1 ↔
             tr_user tr ≠ "" ∧ tr_password tr = ""
             ∧ prompt = "Inserisci la password/app password SMTP: ")
  ∧ (∀ u p, Called (Login u p) ∈ (run_main argv).1 →
            u = tr_user tr
            ∧ p = if decide (tr_password tr = "") then typed else tr_password tr).
Proof.
  intros Hp Hr. unfold main. rewrite Hp, Hr. fold (asked_for tr).
  set (password := if _ && _ then typed else tr_password tr).
  assert (Hasked : ∀ prompt, Asked prompt ∈ asked_for tr ↔
            tr_user tr ≠ "" ∧ tr_password tr = ""
            ∧ prompt = "Inserisci la password/app password SMTP: ").
  { intros prompt. unfold asked_for.
    rewrite <- truthy_true, <- truthy_false.
    destruct (Str.truthy (tr_user tr)), (Str.truthy (tr_password tr)); simpl;
      rewrite ?list_elem_of_singleton, ?elem_of_nil; split;
      try (by intros (? & ? & ?)); try done.
    - by intros [= ->].
    - by intros (_ & _ & ->). }
  assert (Htail : ∀ (A : Type) (g : A → event) (l : list A) (x : event) (tl : list event),
            (∀ a, g a ≠ x) → x ∈ asked_for tr ++ map g l ++ tl →
            x ∈ asked_for tr ∨ x ∈ tl).
  { intros A g l x tl Hg. rewrite !elem_of_app. intros [?|[Hin|?]]; [by left| |by right].
    apply list_elem_of_fmap in Hin as (a & -> & _). by destruct (Hg a). }
  destruct (build_message _ _ _ _ _ _ _ _ _ _ _ _ _) as [msg|e]; cbn [fst].
  { destruct (args_dry_run args); cbn [fst].
    - split.
      + intros prompt. rewrite <- Hasked, elem_of_app. split; [|by left].
        intros [?|Hin]; [done|]. apply list_elem_of_fmap in Hin as (t & [=] & _).
      + intros u p [Hin|Hin]%elem_of_app.
        * unfold asked_for in Hin. destruct (_ && _);
            [by apply list_elem_of_singleton in Hin | by apply elem_of_nil in Hin].
        * apply list_elem_of_fmap in Hin as (t & [=] & _).
    - destruct (send_smtp env cafile_default peer msg (tr_user tr) password (tr_host tr)
                  (tr_port tr) (tr_encryption tr) (tr_cafile tr) (tr_insecure tr) [])
        as [trace r] eqn:Hsend.
      assert (Hlogin : ∀ u p, Login u p ∈ trace →
                u = tr_user tr
                ∧ p = if decide (tr_password tr = "") then typed else tr_password tr).
      { intros u p Hin.
        assert (Hnew : (send_smtp env cafile_default peer msg (tr_user tr) password
                          (tr_host tr) (tr_port tr) (tr_encryption tr) (tr_cafile tr)
                          (tr_insecure tr) []).1 = [] ++ trace) by by rewrite Hsend.
        destruct (send_smtp_new_calls _ _ _ _ _ _ _ _ _ _ _ _ _ _ Hnew Hin)
          as [Hc|[Hc|Hc]].
        - unfold connect_call in Hc. by case_decide.
        - unfold body_calls, login_calls in Hc.
          destruct (Str.truthy (tr_user tr)) eqn:Hu;
            destruct (decide (mode_of (tr_encryption tr) = "ssl")),
              (decide (mode_of (tr_encryption tr) = "tls")); simpl in Hc;
            repeat (apply elem_of_cons in Hc as [Hc|Hc]; [try discriminate|]);
            try (by apply elem_of_nil in Hc);
            injection Hc as -> ->; (split; [done|]);
            unfold password; simpl;
            by destruct (tr_password tr).
        - discriminate. }
      assert (Hevents : ∀ tl, (∀ u p, Called (Login u p) ∉ tl) → (∀ q, Asked q ∉ tl) →
                (∀ prompt, Asked prompt ∈ asked_for tr ++ map Called trace ++ tl ↔
                   tr_user tr ≠ "" ∧ tr_password tr = ""
                   ∧ prompt = "Inserisci la password/app password SMTP: ")
                ∧ (∀ u p, Called (Login u p) ∈ asked_for tr ++ map Called trace ++ tl →
                   u = tr_user tr
                   ∧ p = if decide (tr_password tr = "") then typed
                         else tr_password tr)).
      { intros tl Hl Ha. split.
        - intros prompt. rewrite <- Hasked. split.
          + intros Hin. apply Htail in Hin as [?|Hin]; [done| |done].
            by apply Ha in Hin.
          + intros Hin. apply elem_of_app. by left.
        - intros u p. rewrite !elem_of_app. intros [Hin|[Hin|Hin]].
          + by apply asked_for_no_call in Hin.
          + apply list_elem_of_fmap in Hin as (c & [= <-] & Hc). by apply Hlogin.
          + by apply Hl in Hin. }
      destruct r as [[]|e]; cbn [fst].
      + apply Hevents.
        * intros u p [=]%list_elem_of_singleton.
        * intros q [=]%list_elem_of_singleton.
      + rewrite <- (app_nil_r (map Called trace)). apply Hevents.
        * intros u p. apply not_elem_of_nil.
        * intros q. apply not_elem_of_nil. }
  split.
  - apply Hasked.
  - intros u p Hin. by apply asked_for_no_call in Hin.
Qed.

End MainProperties.



Lemma main_dry_run_stays_offline_witness :
  (∀ c, Called c ∉ (main_sample (argv_plain ++ [Opt "--dry-run" None])).1)
  ∧ (main_sample (argv_plain ++ [Opt "--dry-run" None])).2 = Ok ().
Proof.
  split; [| vm_compute; reflexivity].
  apply (proj1 (main_dry_run_stays_offline ∅ None fs_sample guess_type_sample
                  formataddr_sample accepting "pw" (λ _ v, v)
                  (argv_plain ++ [Opt "--dry-run" None]) args_dry_run_set
                  ltac:(vm_compute; reflexivity) ltac:(reflexivity))).
Defined.



Lemma main_password_prompt_witness :
  (∀ prompt, Asked prompt ∈ (main_sample argv_plain).1 ↔
             tr_user tr_unset ≠ "" ∧ tr_password tr_unset = ""
             ∧ prompt = "Inserisci la password/app password SMTP: ")
  ∧ (∀ u p, Called (Login u p) ∈ (main_sample argv_plain).1 →
            u = tr_user tr_unset
            ∧ p = if decide (tr_password tr_unset = "") then "pw" else tr_password tr_unset).
Proof.
  apply (main_password_prompt ∅ None fs_sample guess_type_sample formataddr_sample
           accepting "pw" (λ _ v, v) argv_plain args_plain tr_unset mc_unset);
    vm_compute; reflexivity.
Defined.

Example main_sample_run :
  main_sample argv_plain
  = ([Asked "Inserisci la password/app password SMTP: ";
      Called (Connect "smtp.mail.yahoo.com" 587); Called Ehlo;
      Called (StartTLS (_build_ssl_context ∅ None None false)); Called Ehlo;
      Called (Login "antonio.trento@yahoo.com" "pw");
      Called (SendMessage
                {| headers := [("From", "antonio.trento@yahoo.com"); ("To", "a@x.com");
                               ("Subject", "Hi")];
                   content := Some (Text "plain" "");
                   all_recipients := Some ["a@x.com"] |} ["a@x.com"]);
      Called Close;
      Printed (check_mark +:+ " Email inviata correttamente a: a@x.com")],
     Ok ()).
Proof. vm_compute. reflexivity. Qed.
